(** * GhostDrop: ephemeral-object lifecycle engine

    A shallow embedding of the cleanup service (soft delete, hard delete,
    [runCleanup]), of the S3 multipart helpers and of the [complete]
    upload controller, together with the part of the relational schema
    (tables [File], [DeletionActivity], [Activity] and their constraints)
    that these functions read and write.

    Effects are explicit: every asynchronous function of the source is a
    computation over a [World] that holds the database tables, the log of
    calls made to the object store, the JavaScript heap of part arrays,
    the clock and the logger output.  The object store itself is outside
    the repository; it is a parameter ([Backend]) that answers each
    command from the history of the calls made so far.  The database can
    reject a conditional update for reasons that the tables do not show;
    the world holds the rejections to come. *)

From Stdlib Require Import ZArith QArith.
From stdpp Require Import base strings list sorting pretty.

Local Open Scope string_scope.
Local Open Scope list_scope.
Local Open Scope Z_scope.

(** ** JavaScript values, exceptions and outcomes *)

(** An [Error] object: its message and, for Prisma errors, its [code]. *)
Record Exn := mkExn { message : string; code : option string }.

Definition Error (msg : string) : Exn := mkExn msg None.

(** How a computation ends: it returns, it throws, or the modelled loop
    ran out of iterations ([OutOfFuel] stands for "still running"). *)
Inductive Outcome (A : Type) : Type :=
  | Ret (a : A)
  | Throw (e : Exn)
  | OutOfFuel.
Arguments Ret {A} a.
Arguments Throw {A} e.
Arguments OutOfFuel {A}.

(** ** Stable sort, the model of [Array.prototype.sort]

    [cmp a b] is the sign of the comparator's result.  The sort is stable:
    an element is inserted in front of the first element that is not
    smaller, so that elements the comparator calls equal keep their
    order. *)
Section Sort.
Context {A : Type} (cmp : A → A → comparison).

Fixpoint insert_sorted (x : A) (l : list A) : list A :=
  match l with
  | [] => [x]
  | y :: l' =>
      match cmp x y with
      | Gt => y :: insert_sorted x l'
      | _ => x :: y :: l'
      end
  end.

Definition stable_sort (l : list A) : list A := foldr insert_sorted [] l.
End Sort.

(** ** Data model *)

(** One element of the [parts] array of a completion request. *)
Record Part := mkPart { partNumber : Z; eTag : string }.

(** [(a, b) => a.partNumber - b.partNumber] *)
Definition byPartNumber (a b : Part) : comparison :=
  Z.compare (partNumber a - partNumber b) 0.

(** A row of table [File] (the columns the engine reads or writes). *)
Record File := mkFile {
  id : string;
  s3Key : string;
  fileName : string;
  mimeType : string;
  size : Z;
  encryptedKeyMetadata : option string;
  expiry : option Z;
  uploadStatus : string;
  ownerId : string;
  folderId : option string;
  deletedAt : option Z
}.

Definition set_deletedAt (f : File) (t : option Z) : File :=
  mkFile (id f) (s3Key f) (fileName f) (mimeType f) (size f)
         (encryptedKeyMetadata f) (expiry f) (uploadStatus f) (ownerId f)
         (folderId f) t.

(** Enum [DeletionStatus] of the schema. *)
Inductive DeletionStatus :=
  | SUCCESS_SOFT_DELETE
  | SUCCESS_HARD_DELETE
  | FAILED_S3
  | FAILED_DB.

(** A row of table [DeletionActivity]; its own [id] and its [deletedAt]
    default are produced by the store and carry no information here. *)
Record DeletionActivity := mkDeletionActivity {
  da_fileId : string;
  da_userId : option string;
  da_s3Key : string;
  da_fileName : string;
  da_reason : option string;
  da_status : DeletionStatus;
  da_error : option string
}.

(** A row of table [Activity]; [fileId] is nullable (ON DELETE SET NULL). *)
Record Activity := mkActivity {
  act_type : string;
  act_message : string;
  act_userId : option string;
  act_fileId : option string;
  act_size : Z
}.

#[global] Instance Part_eq_dec : EqDecision Part.
Proof. solve_decision. Defined.
#[global] Instance DeletionStatus_eq_dec : EqDecision DeletionStatus.
Proof. solve_decision. Defined.
#[global] Instance File_eq_dec : EqDecision File.
Proof. solve_decision. Defined.

(** ** The object store seen from the client *)

Inductive S3Command :=
  | DeleteObjectsCommand (keys : list string)
  | CompleteMultipartUploadCommand (key uploadId : string)
                                   (parts : list (string * Z))
  | AbortMultipartUploadCommand (key uploadId : string).

(** The answer to [send]: the output, of which only the keys of
    [data.Errors] are read (empty when absent), or a rejected promise. *)
Inductive S3Response :=
  | S3Output (errorKeys : list string)
  | S3Failure (e : Exn).

Definition S3Log := list (S3Command * S3Response).

(** The remote service: any function of the calls answered so far and of
    the command at hand. *)
Definition Backend := S3Log → S3Command → S3Response.

(** ** The world *)

Inductive LogLevel := LInfo | LWarn | LError.

(** Besides the tables, the call log, the heap, the clock and the logger
    output, the world holds the two mutable locals of the source that are
    read after a [catch]: the counter [filesProcessed] of the stage in
    progress and the flag [aborted] of [complete].

    [updateFaults] is the fate of the coming [prisma.file.update] calls
    where it does not depend on the tables: [Some e] for a call that the
    database rejects with [e] (a lost connection, a timeout, ...), [None]
    for a call that runs; once the list is used up every call runs. *)
Record World := mkWorld {
  files : list File;
  deletionActivities : list DeletionActivity;
  activities : list Activity;
  s3log : S3Log;
  heap : list (list Part);
  clock : Z;
  logs : list (LogLevel * string);
  nextId : nat;
  filesProcessed : nat;
  aborted : bool;
  updateFaults : list (option Exn)
}.

Definition set_files (fs : list File) (w : World) : World :=
  mkWorld fs (deletionActivities w) (activities w) (s3log w) (heap w)
          (clock w) (logs w) (nextId w) (filesProcessed w) (aborted w)
          (updateFaults w).
Definition set_deletionActivities (ds : list DeletionActivity) (w : World) : World :=
  mkWorld (files w) ds (activities w) (s3log w) (heap w) (clock w) (logs w)
          (nextId w) (filesProcessed w) (aborted w)
          (updateFaults w).
Definition set_activities (acts : list Activity) (w : World) : World :=
  mkWorld (files w) (deletionActivities w) acts (s3log w) (heap w) (clock w)
          (logs w) (nextId w) (filesProcessed w) (aborted w)
          (updateFaults w).
Definition set_s3log (l : S3Log) (w : World) : World :=
  mkWorld (files w) (deletionActivities w) (activities w) l (heap w) (clock w)
          (logs w) (nextId w) (filesProcessed w) (aborted w)
          (updateFaults w).
Definition set_heap (h : list (list Part)) (w : World) : World :=
  mkWorld (files w) (deletionActivities w) (activities w) (s3log w) h (clock w)
          (logs w) (nextId w) (filesProcessed w) (aborted w)
          (updateFaults w).
Definition set_clock (t : Z) (w : World) : World :=
  mkWorld (files w) (deletionActivities w) (activities w) (s3log w) (heap w) t
          (logs w) (nextId w) (filesProcessed w) (aborted w)
          (updateFaults w).
Definition set_logs (l : list (LogLevel * string)) (w : World) : World :=
  mkWorld (files w) (deletionActivities w) (activities w) (s3log w) (heap w)
          (clock w) l (nextId w) (filesProcessed w) (aborted w)
          (updateFaults w).
Definition set_nextId (n : nat) (w : World) : World :=
  mkWorld (files w) (deletionActivities w) (activities w) (s3log w) (heap w)
          (clock w) (logs w) n (filesProcessed w) (aborted w)
          (updateFaults w).
Definition set_filesProcessed (n : nat) (w : World) : World :=
  mkWorld (files w) (deletionActivities w) (activities w) (s3log w) (heap w)
          (clock w) (logs w) (nextId w) n (aborted w) (updateFaults w).
Definition set_aborted (b : bool) (w : World) : World :=
  mkWorld (files w) (deletionActivities w) (activities w) (s3log w) (heap w)
          (clock w) (logs w) (nextId w) (filesProcessed w) b
          (updateFaults w).
Definition set_updateFaults (l : list (option Exn)) (w : World) : World :=
  mkWorld (files w) (deletionActivities w) (activities w) (s3log w) (heap w)
          (clock w) (logs w) (nextId w) (filesProcessed w) (aborted w) l.

(** ** Computations: state and exceptions *)

Definition M (A : Type) : Type := World → Outcome A * World.

Definition ret {A} (a : A) : M A := λ w, (Ret a, w).
Definition throw {A} (e : Exn) : M A := λ w, (Throw e, w).
Definition bind {A B} (m : M A) (k : A → M B) : M B :=
  λ w, match m w with
       | (Ret a, w') => k a w'
       | (Throw e, w') => (Throw e, w')
       | (OutOfFuel, w') => (OutOfFuel, w')
       end.
(** [try { m } catch (e) { h e }]; a loop still running is not caught. *)
Definition try_catch {A} (m : M A) (h : Exn → M A) : M A :=
  λ w, match m w with
       | (Throw e, w') => h e w'
       | r => r
       end.

Notation "'let*' x ':=' m 'in' k" := (bind m (λ x, k))
  (at level 10, x pattern, m at level 100, k at level 200).
Notation "m '>>' k" := (bind m (λ _, k))
  (at level 61, k at level 200, right associativity).

Definition logger (lvl : LogLevel) (msg : string) : M unit :=
  λ w, (Ret tt, set_logs (logs w ++ [(lvl, msg)]) w).

(** [new Date()] *)
Definition newDate : M Z := λ w, (Ret (clock w), w).

(** [await new Promise(resolve => setTimeout(resolve, ms))] *)
Definition sleep (ms : Z) : M unit := λ w, (Ret tt, set_clock (clock w + ms) w).

(** [for (const x of l) { body x }] *)
Fixpoint forOf {A} (l : list A) (body : A → M unit) : M unit :=
  match l with
  | [] => ret tt
  | x :: l' => body x >> forOf l' body
  end.

(** ** The metadata store (Prisma over the migrated schema)

    Each operation is the statement Prisma issues, with the constraints of
    the migrations: [File_pkey], [File_s3Key_key],
    [Activity_fileId_fkey] (ON DELETE SET NULL) and
    [DeletionActivity_fileId_fkey] (ON DELETE NO ACTION).  The tables
    that the lifecycle engine neither reads nor writes ([User], [Folder],
    [Comment], ...) are left out. *)

(** Prisma's "record not found", "foreign key constraint failed" and
    "unique constraint failed". *)
Definition P2025 : Exn := mkExn "Record to update not found." (Some "P2025").
Definition P2003 : Exn := mkExn "Foreign key constraint failed" (Some "P2003").
Definition P2002 : Exn := mkExn "Unique constraint failed" (Some "P2002").

(** [orderBy: { id: 'asc' }] *)
Definition byId (a b : File) : comparison := String.compare (id a) (id b).

(** [prisma.file.findMany({ where, take, orderBy: { id: 'asc' } })] *)
Definition prisma_file_findMany (where_ : File → bool) (take_ : nat) : M (list File) :=
  λ w, (Ret (take take_ (stable_sort byId (filter (λ f, where_ f) (files w)))), w).

(** The row as the conditional update leaves it. *)
Definition updateRow (i : string) (now : Z) (f : File) : File :=
  if bool_decide (id f = i ∧ deletedAt f = None) then set_deletedAt f (Some now) else f.

(** The statement of the conditional update, once it reaches the table. *)
Definition conditionalUpdate (i : string) (now : Z) : M unit :=
  λ w, if bool_decide (Exists (λ f, id f = i ∧ deletedAt f = None) (files w))
       then (Ret tt,
             set_files (updateRow i now <$> files w) w)
       else (Throw P2025, w).

(** [prisma.file.update({ where: { id, deletedAt: null },
                          data: { deletedAt: now } })]: rejected with the
    fault that is due for this call, if any; run otherwise. *)
Definition prisma_file_update (i : string) (now : Z) : M unit :=
  λ w, match updateFaults w with
       | [] => conditionalUpdate i now w
       | None :: faults => conditionalUpdate i now (set_updateFaults faults w)
       | Some e :: faults => (Throw e, set_updateFaults faults w)
       end.

(** [prisma.file.delete({ where: { id } })]: refused while a
    [DeletionActivity] row references the file; [Activity] rows that
    reference it lose their reference. *)
Definition prisma_file_delete (i : string) : M unit :=
  λ w, if bool_decide (Exists (λ f, id f = i) (files w))
       then if bool_decide (Exists (λ d, da_fileId d = i) (deletionActivities w))
            then (Throw P2003, w)
            else (Ret tt,
                  set_files (filter (λ f, id f ≠ i) (files w))
                    (set_activities
                       ((λ a, if bool_decide (act_fileId a = Some i)
                              then mkActivity (act_type a) (act_message a)
                                     (act_userId a) None (act_size a)
                              else a) <$> activities w) w))
       else (Throw P2025, w).

(** [prisma.deletionActivity.create({ data })]: [fileId] must reference an
    existing [File] row. *)
Definition prisma_deletionActivity_create (d : DeletionActivity) : M unit :=
  λ w, if bool_decide (Exists (λ f, id f = da_fileId d) (files w))
       then (Ret tt, set_deletionActivities (deletionActivities w ++ [d]) w)
       else (Throw P2003, w).

(** ** Requests and responses of the upload controller *)

(** A parsed JSON request body.  Numbers are rationals, so that a
    fractional [partNumber] can be told from an integral one. *)
#[local] Unset Elimination Schemes.
Inductive JsVal :=
  | JUndefined
  | JNull
  | JBool (b : bool)
  | JNum (q : Q)
  | JStr (s : string)
  | JArr (items : list JsVal)
  | JObj (fields : list (string * JsVal)).
#[local] Set Elimination Schemes.

(** [o[k]] *)
Fixpoint assoc (k : string) (fields : list (string * JsVal)) : JsVal :=
  match fields with
  | [] => JUndefined
  | (k', v) :: fields' => if bool_decide (k' = k) then v else assoc k fields'
  end.

Definition prop (k : string) (o : JsVal) : JsVal :=
  match o with
  | JObj fields => assoc k fields
  | _ => JUndefined
  end.

(** JavaScript truthiness, as used by [&&] and [!]. *)
Definition truthy (v : JsVal) : bool :=
  match v with
  | JUndefined | JNull => false
  | JBool b => b
  | JNum q => negb (Qeq_bool q 0)
  | JStr s => negb (bool_decide (s = ""))
  | JArr _ | JObj _ => true
  end.

Definition isInteger (q : Q) : bool := bool_decide (Zpos (Qden (Qred q)) = 1).
Definition toInteger (q : Q) : Z := Qnum (Qred q).

(** [req.body] and [req.auth?.userId]. *)
Record Request := mkRequest { body : JsVal; auth_userId : option string }.

(** One entry of [errors]: [detail.context.key] and the kind of Joi error
    that [detail.message] words. *)
Inductive FieldKey := Key (name : string) | Index (i : nat).
Record FieldError := mkFieldError { field : FieldKey; message_type : string }.

(** The validated [value] of [completeUploadSchema]. *)
Record CompleteUpload := mkCompleteUpload {
  v_s3Key : string;
  v_multipart : bool;
  v_uploadId : option string;
  v_parts : option (list Part);
  v_fileName : string;
  v_mimeType : string;
  v_size : Z;
  v_encryptedKeyMetadata : option string;
  v_folderId : option string;
  v_expiry : option Z
}.

Inductive Payload :=
  | PErrors (errs : list FieldError)
  | PError (msg : string)
  | PFile (f : File).

(** What the handler does with [res] or [next]. *)
Inductive Response :=
  | Json (status : nat) (payload : Payload)
  | Next (err : Exn).

(** Joi's format checks and, [convert] being on by default, its
    conversions of a string into the type a rule expects.  They belong to
    the library, not to the repository: the model takes them as given. *)
Record Joi := mkJoi {
  isGuid : string → bool;
  parseIsoDate : string → option Z;
  toNumber : string → option Q;
  toBoolean : string → option bool;
  toArray : string → option (list JsVal);
  toObject : string → option (list (string * JsVal))
}.

(** ** The cleanup service *)

Definition BATCH_SIZE : nat := 100.
Definition RETRY_ATTEMPTS : nat := 3.
Definition RETRY_DELAY_MS : Z := 5000.

Record DeletionResult := mkDeletionResult {
  deleted : list string;
  errors : list string
}.

Section Engine.
(** The remote service, the configured retention
    ([process.env.SOFT_DELETE_RETENTION_MINUTES], 10 by default), the
    identifiers the store gives to new rows, and Joi. *)
Variable backend : Backend.
Variable SOFT_DELETE_RETENTION_MINUTES : Z.
Variable genId : nat → string.
Variable joi : Joi.

(** [s3.send(command)] *)
Definition send (c : S3Command) : M (list string) :=
  λ w, let r := backend (s3log w) c in
       let w' := set_s3log (s3log w ++ [(c, r)]) w in
       match r with
       | S3Output errorKeys => (Ret errorKeys, w')
       | S3Failure e => (Throw e, w')
       end.

Definition deleteS3Objects (keys : list string) : M DeletionResult :=
  if bool_decide (length keys = 0%nat) then ret (mkDeletionResult [] [])
  else
    try_catch
      (let* dataErrors := send (DeleteObjectsCommand keys) in
       if bool_decide (0 < length dataErrors)%nat then
         logger LError "S3 deleteObjects encountered errors: %o" >>
         ret (mkDeletionResult [] dataErrors)
       else
         logger LInfo "Successfully sent delete command to S3 for %d objects." >>
         ret (mkDeletionResult keys []))
      (λ error,
         logger LError "Error deleting S3 objects: %s" >>
         ret (mkDeletionResult [] keys)).

(** The [data] of [logDeletionActivity]. *)
Definition deletionActivityData (file : File) (reason : string)
    (status : DeletionStatus) (error : option Exn) : DeletionActivity :=
  {| da_fileId := id file;
     da_userId := if bool_decide (ownerId file = "") then None
                  else Some (ownerId file);
     da_s3Key := s3Key file;
     da_fileName := fileName file;
     da_reason := Some reason;
     da_status := status;
     da_error := message <$> error |}.

Definition logDeletionActivity (file : File) (reason : string)
    (status : DeletionStatus) (error : option Exn) : M unit :=
  try_catch
    (prisma_deletionActivity_create (deletionActivityData file reason status error))
    (λ logError,
       logger LError "Failed to log deletion activity for file %s: %s").

Definition incrFilesProcessed : M unit :=
  λ w, (Ret tt, set_filesProcessed (S (filesProcessed w)) w).

(** Stage 1, the body of the [for ... of] loop. *)
Definition softDeleteFile (now : Z) (file : File) : M unit :=
  try_catch
    (prisma_file_update (id file) now >>
     logDeletionActivity file "expired" SUCCESS_SOFT_DELETE None >>
     logger LInfo "Soft-deleted file record: %s (s3Key: %s)" >>
     incrFilesProcessed)
    (λ dbError,
       if bool_decide (code dbError = Some "P2025") then
         logger LWarn "File %s already soft-deleted by another process, skipping."
       else
         logger LError "Error marking file %s as soft-deleted: %s" >>
         logDeletionActivity file "expired" FAILED_DB (Some dbError)).

(** [expiry: { lt: now }, deletedAt: null] *)
Definition expiredNotDeleted (now : Z) (f : File) : bool :=
  match expiry f, deletedAt f with
  | Some e, None => bool_decide (e < now)
  | _, _ => false
  end.

(** Stage 1, the [while (true)] loop; [fuel] bounds its iterations. *)
Fixpoint softDeleteLoop (fuel : nat) (now : Z) : M unit :=
  match fuel with
  | O => λ w, (OutOfFuel, w)
  | S fuel' =>
      let* expiredFiles := prisma_file_findMany (expiredNotDeleted now) BATCH_SIZE in
      if bool_decide (length expiredFiles = 0%nat) then
        logger LInfo "No more expired files found for soft deletion. Stage 1 finished."
      else
        logger LInfo "Found %d expired files to soft-delete." >>
        forOf expiredFiles (softDeleteFile now) >>
        softDeleteLoop fuel' now
  end.

Definition getFilesProcessed : M nat := λ w, (Ret (filesProcessed w), w).
Definition resetFilesProcessed : M unit :=
  λ w, (Ret tt, set_filesProcessed 0 w).

(** Returns [softDeletedCount]. *)
Definition softDeleteExpiredFiles (fuel : nat) : M nat :=
  logger LInfo "Starting Stage 1: Marking expired files for soft deletion..." >>
  let* now := newDate in
  resetFilesProcessed >>
  try_catch (softDeleteLoop fuel now)
    (λ outerError, logger LError "Error in softDeleteExpiredFiles stage: %s") >>
  getFilesProcessed.

(** The retry loop [for (let i = 0; i < RETRY_ATTEMPTS; i++)]:
    [attempts] is the number of iterations left. *)
Fixpoint s3DeleteWithRetry (attempts : nat) (s3DeletionResult : DeletionResult)
    : M DeletionResult :=
  match attempts with
  | O => ret s3DeletionResult
  | S attempts' =>
      let* r := deleteS3Objects (errors s3DeletionResult) in
      if bool_decide (length (errors r) = 0%nat) then ret r
      else
        logger LWarn "S3 hard deletion retry %d/%d for %d objects. Retrying in %dms..." >>
        sleep RETRY_DELAY_MS >>
        s3DeleteWithRetry attempts' r
  end.

(** Stage 2, the body of the [for ... of] loop. *)
Definition hardDeleteFile (s3SuccessfullyDeletedKeys : list string) (file : File)
    : M unit :=
  if bool_decide (s3Key file ∈ s3SuccessfullyDeletedKeys) then
    try_catch
      (prisma_file_delete (id file) >>
       logDeletionActivity file "hard_delete" SUCCESS_HARD_DELETE None >>
       logger LInfo "Hard deleted file record from DB and logged: %s (s3Key: %s)" >>
       incrFilesProcessed)
      (λ dbError,
         logger LError "Error hard deleting DB record for file %s: %s" >>
         logDeletionActivity file "hard_delete" FAILED_DB (Some dbError))
  else
    logger LWarn "S3 hard deletion failed for %s. Skipping DB deletion and logging as failed." >>
    logDeletionActivity file "hard_delete" FAILED_S3
      (Some (Error "S3 deletion failed after retries")).

(** Stage 2, one iteration of the [while (true)] loop on a fetched,
    non-empty batch. *)
Definition hardDeleteBatch (filesToHardDelete : list File) : M unit :=
  logger LInfo "Found %d soft-deleted files to hard-delete." >>
  let s3KeysToAttemptDelete := s3Key <$> filesToHardDelete in
  let* s3DeletionResult :=
    s3DeleteWithRetry RETRY_ATTEMPTS (mkDeletionResult [] s3KeysToAttemptDelete) in
  forOf filesToHardDelete (hardDeleteFile (deleted s3DeletionResult)).

(** [deletedAt: { lt: hardDeleteCutoff, not: null }] *)
Definition softDeletedBefore (hardDeleteCutoff : Z) (f : File) : bool :=
  match deletedAt f with
  | Some d => bool_decide (d < hardDeleteCutoff)
  | None => false
  end.

Fixpoint hardDeleteLoop (fuel : nat) (hardDeleteCutoff : Z) : M unit :=
  match fuel with
  | O => λ w, (OutOfFuel, w)
  | S fuel' =>
      let* filesToHardDelete :=
        prisma_file_findMany (softDeletedBefore hardDeleteCutoff) BATCH_SIZE in
      if bool_decide (length filesToHardDelete = 0%nat) then
        logger LInfo "No more files found for hard deletion. Stage 2 finished."
      else
        hardDeleteBatch filesToHardDelete >>
        hardDeleteLoop fuel' hardDeleteCutoff
  end.

(** Returns [hardDeletedCount]. *)
Definition hardDeleteSoftDeletedFiles (fuel : nat) : M nat :=
  logger LInfo "Starting Stage 2: Hard deleting files past retention period..." >>
  let* now := newDate in
  resetFilesProcessed >>
  let hardDeleteCutoff := now - SOFT_DELETE_RETENTION_MINUTES * 60 * 1000 in
  try_catch (hardDeleteLoop fuel hardDeleteCutoff)
    (λ outerError, logger LError "Error in hardDeleteSoftDeletedFiles stage: %s") >>
  getFilesProcessed.

Record CleanupReport := mkCleanupReport {
  report_message : string;
  softDeleted : nat;
  hardDeleted : nat
}.

Definition runCleanup (fuel : nat) : M CleanupReport :=
  logger LInfo "Starting full cleanup service run..." >>
  let* softDeletedCount :=
    try_catch (softDeleteExpiredFiles fuel)
      (λ error,
         logger LError "Unhandled error during soft delete stage of cleanup: %s" >>
         ret 0%nat) in
  let* hardDeletedCount :=
    try_catch (hardDeleteSoftDeletedFiles fuel)
      (λ error,
         logger LError "Unhandled error during hard delete stage of cleanup: %s" >>
         ret 0%nat) in
  logger LInfo "Full cleanup service finished. Soft-deleted: %d, Hard-deleted: %d" >>
  ret (mkCleanupReport "Cleanup service executed" softDeletedCount hardDeletedCount).

(** ** The S3 helpers ([s3Services]) *)

Definition TypeError (msg : string) : Exn := mkExn msg None.

(** [parts.sort((a, b) => a.partNumber - b.partNumber)]: the array at
    reference [parts] is sorted in place and is also the result. *)
Definition array_sort (parts : nat) : M (list Part) :=
  λ w, match heap w !! parts with
       | Some l =>
           let sorted := stable_sort byPartNumber l in
           (Ret sorted, set_heap (<[parts := sorted]> (heap w)) w)
       | None =>
           (Throw (TypeError "Cannot read properties of undefined (reading 'sort')"), w)
       end.

Definition completeMultipart (key uploadId : string) (parts : nat)
    : M (list string) :=
  let* sorted := array_sort parts in
  send (CompleteMultipartUploadCommand key uploadId
          ((λ p, (eTag p, partNumber p)) <$> sorted)).

Definition abortMultipart (key uploadId : string) : M unit :=
  try_catch
    (send (AbortMultipartUploadCommand key uploadId) >>
     logger LInfo "Aborted multipart upload: ${uploadId} for key: ${key}")
    (λ err,
       logger LError "Failed to abort multipart upload ${uploadId}:" >>
       throw err).

(** ** Validation ([completeUploadSchema])

    Every rule gives the errors it raises and the value it yields.  The
    body is what [express.json()] hands over. *)

Definition err (k : string) (ty : string) : list FieldError :=
  [mkFieldError (Key k) ty].

(** [Joi.string().min(lo).max(hi).required()]; [hi = None] for no
    maximum. *)
Definition requiredString (k : string) (lo : nat) (hi : option nat) (v : JsVal)
    : list FieldError * string :=
  match v with
  | JUndefined => (err k "any.required", "")
  | JStr s =>
      if bool_decide (s = "") then (err k "string.empty", s)
      else if bool_decide (String.length s < lo)%nat then (err k "string.min", s)
      else match hi with
           | Some h => if bool_decide (h < String.length s)%nat
                       then (err k "string.max", s) else ([], s)
           | None => ([], s)
           end
  | _ => (err k "string.base", "")
  end.

(** [Joi.string().optional().allow(null)], with a format check. *)
Definition optionalString (k : string) (format : string → bool) (ty : string)
    (v : JsVal) : list FieldError * option string :=
  match v with
  | JUndefined | JNull => ([], None)
  | JStr s =>
      if bool_decide (s = "") then (err k "string.empty", None)
      else if format s then ([], Some s) else (err k ty, None)
  | _ => (err k "string.base", None)
  end.

(** A value as a rule of the given type reads it. *)
Definition asNumber (v : JsVal) : option Q :=
  match v with JNum q => Some q | JStr s => toNumber joi s | _ => None end.
Definition asBoolean (v : JsVal) : option bool :=
  match v with JBool b => Some b | JStr s => toBoolean joi s | _ => None end.
Definition asArray (v : JsVal) : option (list JsVal) :=
  match v with JArr l => Some l | JStr s => toArray joi s | _ => None end.
Definition asObject (v : JsVal) : option (list (string * JsVal)) :=
  match v with JObj fields => Some fields | JStr s => toObject joi s | _ => None end.

(** [Joi.number().integer().min(lo).required()]; Joi also refuses
    numbers outside the safe integer range. *)
Definition requiredInteger (k : string) (lo : Z) (v : JsVal)
    : list FieldError * Z :=
  match v with
  | JUndefined => (err k "any.required", 0)
  | _ =>
      match asNumber v with
      | Some q =>
          if negb (isInteger q) then (err k "number.integer", 0)
          else if bool_decide (2 ^ 53 - 1 < Z.abs (toInteger q))
               then (err k "number.unsafe", 0)
          else if bool_decide (toInteger q < lo) then (err k "number.min", 0)
          else ([], toInteger q)
      | None => (err k "number.base", 0)
      end
  end.

(** [Joi.object({ partNumber: Joi.number().integer().min(1).required(),
                  eTag: Joi.string().required() })] on element [i]. *)
Definition partSchema (i : nat) (v : JsVal) : list FieldError * Part :=
  match v with
  | JUndefined => ([mkFieldError (Index i) "array.sparse"], mkPart 0 "")
  | _ =>
      match asObject v with
      | Some fields =>
          let '(e1, n) := requiredInteger "partNumber" 1 (assoc "partNumber" fields) in
          let '(e2, t) := requiredString "eTag" 0 None (assoc "eTag" fields) in
          (e1 ++ e2, mkPart n t)
      | None => ([mkFieldError (Index i) "object.base"], mkPart 0 "")
      end
  end.

(** [Joi.array().items(...)]: every element is checked; no rule bounds
    the length. *)
Fixpoint itemsSchema (i : nat) (l : list JsVal) : list FieldError * list Part :=
  match l with
  | [] => ([], [])
  | v :: l' =>
      let '(e, p) := partSchema i v in
      let '(es, ps) := itemsSchema (S i) l' in
      (e ++ es, p :: ps)
  end.

(** [Joi.boolean().default(false)] *)
Definition multipartSchema (b : JsVal) : list FieldError * bool :=
  match prop "multipart" b with
  | JUndefined => ([], false)
  | v =>
      match asBoolean v with
      | Some x => ([], x)
      | None => (err "multipart" "boolean.base", false)
      end
  end.

(** [.when('multipart', { is: true, then: Joi.required(),
                          otherwise: Joi.forbidden() })]: the condition
    reads the value of [multipart] that its own rule yields. *)
Definition isMultipart (b : JsVal) : bool := (multipartSchema b).2.

Definition uploadIdSchema (b : JsVal) : list FieldError * option string :=
  let v := prop "uploadId" b in
  if isMultipart b then
    let '(e, s) := requiredString "uploadId" 0 None v in (e, Some s)
  else
    match v with
    | JUndefined => ([], None)
    | _ => (err "uploadId" "any.unknown", None)
    end.

Definition partsSchema (b : JsVal) : list FieldError * option (list Part) :=
  let v := prop "parts" b in
  if isMultipart b then
    match v with
    | JUndefined => (err "parts" "any.required", None)
    | _ =>
        match asArray v with
        | Some l => let '(e, ps) := itemsSchema 0 l in (e, Some ps)
        | None => (err "parts" "array.base", None)
        end
    end
  else
    match v with
    | JUndefined => ([], None)
    | _ => (err "parts" "any.unknown", None)
    end.

(** [Joi.date().iso().optional().allow(null)] *)
Definition expirySchema (b : JsVal) : list FieldError * option Z :=
  match prop "expiry" b with
  | JUndefined | JNull => ([], None)
  | JStr s =>
      match parseIsoDate joi s with
      | Some t => ([], Some t)
      | None => (err "expiry" "date.format", None)
      end
  | _ => (err "expiry" "date.format", None)
  end.

Inductive Validated :=
  | VErrors (errs : list FieldError)
  | VValue (value : CompleteUpload).

(** [completeUploadSchema.validate(data, { abortEarly: false,
    allowUnknown: true })]: all the errors of all the rules, in the order
    of the keys, or the value. *)
Definition completeUploadSchema (b : JsVal) : Validated :=
  match b with
  | JObj _ =>
      let '(e1, s3Key) := requiredString "s3Key" 0 None (prop "s3Key" b) in
      let '(e2, multipart) := multipartSchema b in
      let '(e3, uploadId) := uploadIdSchema b in
      let '(e4, parts) := partsSchema b in
      let '(e5, fileName) := requiredString "fileName" 1 (Some 255%nat) (prop "fileName" b) in
      let '(e6, mimeType) := requiredString "mimeType" 1 None (prop "mimeType" b) in
      let '(e7, size) := requiredInteger "size" 0 (prop "size" b) in
      let '(e8, encryptedKeyMetadata) :=
        optionalString "encryptedKeyMetadata" (λ _, true) "" (prop "encryptedKeyMetadata" b) in
      let '(e9, folderId) :=
        optionalString "folderId" (isGuid joi) "string.guid" (prop "folderId" b) in
      let '(e10, expiry) := expirySchema b in
      match e1 ++ e2 ++ e3 ++ e4 ++ e5 ++ e6 ++ e7 ++ e8 ++ e9 ++ e10 with
      | [] => VValue (mkCompleteUpload s3Key multipart uploadId parts fileName
                        mimeType size encryptedKeyMetadata folderId expiry)
      | errs => VErrors errs
      end
  | _ => VErrors [mkFieldError (Key "value") "object.base"]
  end.

(** [validate(data, schema)] *)
Definition validate (data : JsVal) (schema : JsVal → Validated) : Validated :=
  schema data.

(** ** The metadata writes of the controller *)

(** [prisma.file.create({ data })]: the store names the row; the primary
    key and [File_s3Key_key] must stay unique. *)
Definition prisma_file_create (data : File) : M File :=
  λ w, let row := mkFile (genId (nextId w)) (s3Key data) (fileName data)
                    (mimeType data) (size data) (encryptedKeyMetadata data)
                    (expiry data) (uploadStatus data) (ownerId data)
                    (folderId data) None in
       if bool_decide (Exists (λ f, id f = id row ∨ s3Key f = s3Key row) (files w))
       then (Throw P2002, w)
       else (Ret row, set_nextId (S (nextId w)) (set_files (files w ++ [row]) w)).

(** [prisma.activity.create({ data })] *)
Definition prisma_activity_create (a : Activity) : M unit :=
  λ w, match act_fileId a with
       | Some i =>
           if bool_decide (Exists (λ f, id f = i) (files w))
           then (Ret tt, set_activities (activities w ++ [a]) w)
           else (Throw P2003, w)
       | None => (Ret tt, set_activities (activities w ++ [a]) w)
       end.

(** ** The upload controller *)

(** [new Array]: the validated [parts] array is an object on the heap. *)
Definition newArray (l : list Part) : M nat :=
  λ w, (Ret (length (heap w)), set_heap (heap w ++ [l]) w).

Definition setAborted (b : bool) : M unit := λ w, (Ret tt, set_aborted b w).
Definition getAborted : M bool := λ w, (Ret (aborted w), w).

Definition asString (v : JsVal) : string :=
  match v with JStr s => s | _ => "" end.

(** The [try] block of [complete]. *)
Definition completeBody (req : Request) : M Response :=
  match validate (body req) completeUploadSchema with
  | VErrors errs => ret (Json 400 (PErrors errs))
  | VValue value =>
      match auth_userId req with
      | None => ret (Json 401 (PError "Unauthorized"))
      | Some userId =>
          if bool_decide (userId = "") then ret (Json 401 (PError "Unauthorized"))
          else
            (if v_multipart value then
               match v_uploadId value, v_parts value with
               | Some uploadId, Some partsList =>
                   let* parts := newArray partsList in
                   try_catch
                     (completeMultipart (v_s3Key value) uploadId parts >> ret tt)
                     (λ err,
                        abortMultipart (v_s3Key value) uploadId >>
                        setAborted true >>
                        throw (Error ("Multipart upload failed and aborted: "
                                      +:+ message err)))
               | _, _ =>
                   throw (TypeError "Cannot read properties of undefined (reading 'sort')")
               end
             else ret tt) >>
            let* file :=
              prisma_file_create
                (mkFile "" (v_s3Key value) (v_fileName value) (v_mimeType value)
                   (v_size value) (v_encryptedKeyMetadata value) (v_expiry value)
                   "COMPLETED" userId (v_folderId value) None) in
            prisma_activity_create
              (mkActivity "FILE_UPLOADED" ("File uploaded: " +:+ v_fileName value)
                 (Some userId) (Some (id file)) (v_size value)) >>
            ret (Json 201 (PFile file))
      end
  end.

Definition complete (req : Request) : M Response :=
  setAborted false >>
  try_catch (completeBody req)
    (λ err,
       logger LError "complete failed: %s" >>
       let* aborted := getAborted in
       (if negb aborted && truthy (prop "multipart" (body req))
             && truthy (prop "uploadId" (body req)) then
          try_catch
            (abortMultipart (asString (prop "s3Key" (body req)))
                            (asString (prop "uploadId" (body req))) >>
             logger LInfo "Multipart upload aborted due to unexpected error.")
            (λ _, ret tt)
        else ret tt) >>
       ret (Next err)).

End Engine.

(** * Vocabulary of the statements and sample stores *)

(** Ascending part numbers. *)
Definition partLe (a b : Part) : Prop := partNumber a ≤ partNumber b.

(** A part as the schema wants it: an object whose [partNumber] is a
    safe integer from 1 up and whose [eTag] is a non-empty string. *)
Definition wellFormedPart (joi : Joi) (v : JsVal) : bool :=
  match asObject joi v with
  | Some fields =>
      match asNumber joi (assoc "partNumber" fields), assoc "eTag" fields with
      | Some q, JStr t =>
          isInteger q && bool_decide (1 ≤ toInteger q ≤ 2 ^ 53 - 1)
          && negb (bool_decide (t = ""))
      | _, _ => false
      end
  | None => false
  end.

Definition wellFormedParts (joi : Joi) (v : JsVal) : bool :=
  match asArray joi v with
  | Some l => forallb (wellFormedPart joi) l
  | None => false
  end.

(** The table after the rows named in [ids] have been soft-deleted. *)
Definition markDeleted (now : Z) (ids : list string) (f : File) : File :=
  if bool_decide (id f ∈ ids) then set_deletedAt f (Some now) else f.

Definition softDeleteEntry (f : File) : DeletionActivity :=
  deletionActivityData f "expired" SUCCESS_SOFT_DELETE None.

(** The state of the drain once the rows [done] have been handled, when
    the database rejects no update. *)
Definition drained (now : Z) (fs0 : list File) (log0 : list DeletionActivity)
    (done : list File) (w : World) : Prop :=
  files w = markDeleted now (id <$> done) <$> fs0 ∧
  deletionActivities w = log0 ++ (softDeleteEntry <$> done) ∧
  filesProcessed w = length done ∧
  updateFaults w = [].

(** A row that is due for soft deletion at [now]: it has an expiry, the
    expiry lies before [now], and it is not soft-deleted yet. *)
Definition dueForSoftDelete (now : Z) (f : File) : Prop :=
  ∃ e, expiry f = Some e ∧ e < now ∧ deletedAt f = None.

#[global] Instance dueForSoftDelete_dec now f : Decision (dueForSoftDelete now f).
Proof.
  unfold dueForSoftDelete. destruct (expiry f) as [e|].
  - destruct (decide (e < now ∧ deletedAt f = None)) as [[H1 H2]|H].
    + left. by exists e.
    + right. intros (e' & [= <-] & H1 & H2). by apply H.
  - right. by intros (e & [=] & _).
Defined.

Definition emptyWorld : World := mkWorld [] [] [] [] [] 0 [] 0 0 false [].

(** A store that accepts every command. *)
Definition acceptingBackend : Backend := λ _ _, S3Output [].

Definition sampleId (n : nat) : string := "file-" +:+ pretty n.
(** A Joi that converts no string. *)
Definition strictJoi : Joi :=
  mkJoi (λ _, true) (λ _, None) (λ _, None) (λ _, None) (λ _, None) (λ _, None).

Definition partObject (n : Z) (t : string) : JsVal :=
  JObj [("partNumber", JNum (inject_Z n)); ("eTag", JStr t)].

(** A completion request of user [u1] for the key [uploads/u1/k]. *)
Definition completionRequest (multipart uploadId parts : JsVal) : Request :=
  mkRequest
    (JObj [("s3Key", JStr "uploads/u1/k"); ("multipart", multipart);
           ("uploadId", uploadId); ("parts", parts);
           ("fileName", JStr "a.txt"); ("mimeType", JStr "text/plain");
           ("size", JNum (inject_Z 3))])
    (Some "u1").

(** A store that refuses every assembly and every abort. *)
Definition refusingBackend : Backend :=
  λ _ c, match c with
         | CompleteMultipartUploadCommand _ _ _ => S3Failure (Error "assembly refused")
         | AbortMultipartUploadCommand _ _ => S3Failure (Error "abort refused")
         | DeleteObjectsCommand _ => S3Output []
         end.

Definition fileRow (i k : string) (e d : option Z) : File :=
  mkFile i k ("name-" +:+ i) "text/plain" 1 None e "COMPLETED" "u1" None d.

Definition cleanupWorld (fs : list File) (t : Z) : World :=
  mkWorld fs [] [] [] [] t [] 0 0 false [].

(** Five rows soft-deleted at time 0, keys [k1] to [k5]. *)
Definition fiveFiles : list File :=
  [fileRow "1" "k1" (Some 5) (Some 0); fileRow "2" "k2" (Some 5) (Some 0);
   fileRow "3" "k3" (Some 5) (Some 0); fileRow "4" "k4" (Some 5) (Some 0);
   fileRow "5" "k5" (Some 5) (Some 0)].

(** A store that deletes every key but [k4] and [k5], which it reports
    as failed each time they are sent. *)
Definition partialBackend : Backend :=
  λ _ c, match c with
         | DeleteObjectsCommand keys =>
             S3Output (filter (λ k, k = "k4" ∨ k = "k5") keys)
         | _ => S3Output []
         end.

(** A store that rejects every batched delete. *)
Definition failingBackend : Backend :=
  λ _ c, match c with
         | DeleteObjectsCommand _ => S3Failure (Error "service unavailable")
         | _ => S3Output []
         end.

(** One row, soft-deleted at time 0 and long past the retention window. *)
Definition staleWorld : World :=
  cleanupWorld [fileRow "1" "k1" (Some 5) (Some 0)] 10000000.

(** ** Vocabulary of the further properties *)

(** The commands of a retry loop that starts with [keys]: each one
    carries the keys the answer before it left undeleted (all of them
    when the call was rejected). *)
Fixpoint retryChain (keys : list string) (entries : S3Log) : Prop :=
  match entries with
  | [] => True
  | (c, resp) :: rest =>
      c = DeleteObjectsCommand keys ∧ keys ≠ [] ∧
      retryChain (match resp with
                  | S3Output errorKeys => errorKeys
                  | S3Failure _ => keys
                  end) rest
  end.

(** What a stage leaves alone: the call log, the clock, the table
    [Activity], the heap and the identifier supply. *)
Definition sameSurroundings (w w' : World) : Prop :=
  s3log w' = s3log w ∧ clock w' = clock w ∧ activities w' = activities w ∧
  heap w' = heap w ∧ nextId w' = nextId w.

(** A row that is due for hard deletion: it was soft-deleted before the
    cutoff. *)
Definition dueForHardDelete (cutoff : Z) (f : File) : Prop :=
  ∃ d, deletedAt f = Some d ∧ d < cutoff.

#[global] Instance dueForHardDelete_dec cutoff f : Decision (dueForHardDelete cutoff f).
Proof.
  unfold dueForHardDelete. destruct (deletedAt f) as [d|].
  - destruct (decide (d < cutoff)) as [H|H].
    + left. by exists d.
    + right. intros (d' & [= <-] & H'). by apply H.
  - right. by intros (d & [=] & _).
Defined.

(** An audit entry that reports a failure. *)
Definition failureEntry (d : DeletionActivity) : Prop :=
  da_status d = FAILED_S3 ∨ da_status d = FAILED_DB.

(** How stage 2 may change the tables: rows can only go, a row that is
    not due stays, and the audit log only grows, by entries of failure. *)
Definition hardDeleteStep (cutoff : Z) (w w' : World) : Prop :=
  files w' `sublist_of` files w ∧
  (∀ f, f ∈ files w → softDeletedBefore cutoff f = false → f ∈ files w') ∧
  ∃ added, deletionActivities w' = deletionActivities w ++ added ∧
           Forall failureEntry added.


(** * Properties *)

(** ** The stable sort *)

Section SortFacts.
Context {A : Type} (cmp : A → A → comparison).

Lemma insert_sorted_perm (x : A) (l : list A) :
  insert_sorted cmp x l ≡ₚ x :: l.
Proof.
  induction l as [|y l IH]; simpl; [done|].
  destruct (cmp x y); try done.
  rewrite IH. apply Permutation_swap.
Qed.

Lemma stable_sort_perm (l : list A) : stable_sort cmp l ≡ₚ l.
Proof.
  induction l as [|x l IH]; simpl; [done|].
  rewrite insert_sorted_perm. by rewrite IH.
Qed.
End SortFacts.

Lemma byPartNumber_Gt (a b : Part) :
  byPartNumber a b = Gt ↔ partNumber b < partNumber a.
Proof. unfold byPartNumber. rewrite Z.compare_gt_iff. lia. Qed.

Lemma insert_sorted_parts (x : Part) (l : list Part) :
  StronglySorted partLe l → StronglySorted partLe (insert_sorted byPartNumber x l).
Proof.
  induction 1 as [|y l Hl IH Hy]; simpl.
  - repeat constructor.
  - destruct (byPartNumber x y) eqn:E.
    + constructor; [by constructor|].
      assert (partNumber x ≤ partNumber y) as Hxy.
      { destruct (decide (partNumber y < partNumber x)) as [H|H]; [|lia].
        apply byPartNumber_Gt in H. congruence. }
      constructor; [done|].
      eapply Forall_impl; [exact Hy|]. unfold partLe. intros; lia.
    + constructor; [by constructor|].
      assert (partNumber x ≤ partNumber y) as Hxy.
      { destruct (decide (partNumber y < partNumber x)) as [H|H]; [|lia].
        apply byPartNumber_Gt in H. congruence. }
      constructor; [done|].
      eapply Forall_impl; [exact Hy|]. unfold partLe. intros; lia.
    + apply byPartNumber_Gt in E.
      constructor; [done|].
      rewrite insert_sorted_perm. constructor; [unfold partLe; lia|done].
Qed.

Lemma stable_sort_parts_sorted (l : list Part) :
  StronglySorted partLe (stable_sort byPartNumber l).
Proof.
  induction l as [|x l IH]; simpl; [constructor|].
  by apply insert_sorted_parts.
Qed.

(** Sorting a list that is already ascending leaves it as it is. *)
Lemma stable_sort_parts_fixed (l : list Part) :
  StronglySorted partLe l → stable_sort byPartNumber l = l.
Proof.
  induction 1 as [|x l Hl IH Hx]; simpl; [done|].
  rewrite IH. destruct l as [|y l']; simpl; [done|].
  apply Forall_cons in Hx as [Hxy _].
  destruct (byPartNumber x y) eqn:E; try done.
  apply byPartNumber_Gt in E. unfold partLe in Hxy. lia.
Qed.

(** Two ascending arrangements of the same parts coincide as soon as a
    part number determines its part. *)
Lemma sorted_parts_unique (l1 l2 : list Part) :
  (∀ p q, p ∈ l1 → q ∈ l1 → partNumber p = partNumber q → p = q) →
  StronglySorted partLe l1 → StronglySorted partLe l2 → l1 ≡ₚ l2 → l1 = l2.
Proof.
  intros Hfun H1. revert l2. induction H1 as [|x l1 Hl1 IH Hx]; intros l2 H2 Hp.
  - by apply Permutation_nil_l in Hp.
  - destruct H2 as [|y l2 Hl2 Hy].
    { by apply Permutation_nil_r in Hp. }
    assert (x = y) as ->.
    { assert (y ∈ x :: l1) as Hyin by (rewrite Hp; left).
      assert (x ∈ y :: l2) as Hxin by (rewrite <- Hp; left).
      apply elem_of_cons in Hyin as [->|Hyin]; [done|].
      apply elem_of_cons in Hxin as [->|Hxin]; [done|].
      rewrite Forall_forall in Hx. rewrite Forall_forall in Hy.
      specialize (Hx _ Hyin). specialize (Hy _ Hxin). unfold partLe in *.
      apply Hfun; [left|by right|lia]. }
    f_equal. apply IH; [|done|by apply (inj (cons y))].
    intros p q Hp' Hq'. apply Hfun; by right.
Qed.

(** ** Multipart completion and the order of the parts *)

(** What [completeMultipart] does, whatever the store answers: the array
    is sorted where it lies and the command is logged with its answer. *)
Lemma completeMultipart_run backend key uploadId parts w l :
  heap w !! parts = Some l →
  let sorted := stable_sort byPartNumber l in
  let cmd := CompleteMultipartUploadCommand key uploadId
               ((λ p, (eTag p, partNumber p)) <$> sorted) in
  let r := backend (s3log w) cmd in
  completeMultipart backend key uploadId parts w =
    (match r with S3Output out => Ret out | S3Failure e => Throw e end,
     set_s3log (s3log w ++ [(cmd, r)]) (set_heap (<[parts := sorted]> (heap w)) w)).
Proof.
  intros Hl. unfold completeMultipart, bind, array_sort, send. rewrite Hl. simpl.
  by destruct (backend _ _).
Qed.

(** C10: [completeMultipart] sorts the caller's array in place.  After the
    call, whether the store accepted or refused the assembly, the array
    the caller passed holds the same parts in ascending order of
    [partNumber], and no other array of the heap has changed. *)
Theorem completeMultipart_sorts_in_place backend key uploadId parts w l :
  heap w !! parts = Some l →
  let w' := (completeMultipart backend key uploadId parts w).2 in
  heap w' !! parts = Some (stable_sort byPartNumber l) ∧
  StronglySorted partLe (stable_sort byPartNumber l) ∧
  stable_sort byPartNumber l ≡ₚ l ∧
  (∀ other, other ≠ parts → heap w' !! other = heap w !! other).
Proof.
  intros Hl. simpl. rewrite (completeMultipart_run _ _ _ _ _ _ Hl). simpl.
  split_and!.
  - apply list_lookup_insert_eq. by eapply lookup_lt_Some.
  - apply stable_sort_parts_sorted.
  - apply stable_sort_perm.
  - intros other Hne. by apply list_lookup_insert_ne.
Qed.

Lemma completeMultipart_sorts_in_place_witness :
  let w := set_heap [[mkPart 3 "c"; mkPart 1 "a"; mkPart 2 "b"]] emptyWorld in
  heap (completeMultipart acceptingBackend "k" "u" 0 w).2 !! 0%nat
    = Some [mkPart 1 "a"; mkPart 2 "b"; mkPart 3 "c"].
Proof.
  intros w.
  exact (proj1 (completeMultipart_sorts_in_place acceptingBackend "k" "u" 0 w
                  [mkPart 3 "c"; mkPart 1 "a"; mkPart 2 "b"] eq_refl)).
Defined.

(** C7, as amended: when a part number determines its part (in
    particular when part numbers are pairwise distinct), two calls whose
    arrays hold the same parts in different orders send the same assembly
    command, get the same answer and leave the same sorted array; this
    covers the array given already sorted. *)
Theorem completeMultipart_order_irrelevant backend key uploadId parts w1 w2 l1 l2 :
  heap w1 !! parts = Some l1 →
  heap w2 !! parts = Some l2 →
  s3log w1 = s3log w2 →
  l1 ≡ₚ l2 →
  (∀ p q, p ∈ l1 → q ∈ l1 → partNumber p = partNumber q → p = q) →
  let r1 := completeMultipart backend key uploadId parts w1 in
  let r2 := completeMultipart backend key uploadId parts w2 in
  r1.1 = r2.1 ∧ s3log r1.2 = s3log r2.2 ∧ heap r1.2 !! parts = heap r2.2 !! parts.
Proof.
  intros H1 H2 Hlog Hp Hfun. simpl.
  rewrite (completeMultipart_run _ _ _ _ _ _ H1), (completeMultipart_run _ _ _ _ _ _ H2).
  assert (stable_sort byPartNumber l1 = stable_sort byPartNumber l2) as Heq.
  { apply sorted_parts_unique; try apply stable_sort_parts_sorted.
    - intros p q Hp' Hq'. rewrite stable_sort_perm in Hp', Hq'. by apply Hfun.
    - by rewrite !stable_sort_perm. }
  simpl. rewrite Heq, Hlog. split_and!; try done.
  rewrite !list_lookup_insert_eq; [done|by eapply lookup_lt_Some..].
Qed.

Lemma completeMultipart_order_irrelevant_witness :
  let w1 := set_heap [[mkPart 2 "b"; mkPart 1 "a"]] emptyWorld in
  let w2 := set_heap [[mkPart 1 "a"; mkPart 2 "b"]] emptyWorld in
  s3log (completeMultipart acceptingBackend "k" "u" 0 w1).2
  = s3log (completeMultipart acceptingBackend "k" "u" 0 w2).2.
Proof.
  intros w1 w2.
  refine (proj1 (proj2 (completeMultipart_order_irrelevant acceptingBackend "k" "u" 0
                   w1 w2 [mkPart 2 "b"; mkPart 1 "a"] [mkPart 1 "a"; mkPart 2 "b"]
                   eq_refl eq_refl eq_refl _ _))).
  - apply Permutation_swap.
  - intros p q Hp Hq Hn.
    repeat (apply elem_of_cons in Hp as [->|Hp]);
    repeat (apply elem_of_cons in Hq as [->|Hq]);
    try done; try (by apply elem_of_nil in Hp); try (by apply elem_of_nil in Hq).
Defined.

(** C7 as stated fails on ties: two parts that share a part number and
    differ in their tag keep the order in which they were given, so the
    same parts in another order, although ascending already, send another
    command.  The schema accepts such a list. *)
Lemma completeMultipart_ties_counterexample :
  let l1 := [mkPart 1 "a"; mkPart 1 "b"] in
  let l2 := [mkPart 1 "b"; mkPart 1 "a"] in
  let w1 := set_heap [l1] emptyWorld in
  let w2 := set_heap [l2] emptyWorld in
  l1 ≡ₚ l2 ∧ StronglySorted partLe l2 ∧
  s3log (completeMultipart acceptingBackend "k" "u" 0 w1).2
  ≠ s3log (completeMultipart acceptingBackend "k" "u" 0 w2).2 ∧
  ∃ value,
    validate (body (completionRequest (JBool true) (JStr "u")
                      (JArr [partObject 1 "a"; partObject 1 "b"])))
             (completeUploadSchema strictJoi) = VValue value ∧
    v_parts value = Some l1.
Proof.
  simpl. split_and!.
  - apply Permutation_swap.
  - repeat constructor; unfold partLe; simpl; lia.
  - vm_compute. discriminate.
  - eexists. split; vm_compute; reflexivity.
Qed.

(** ** Validation of a completion request *)

Ltac run :=
  unfold complete, completeBody, completeMultipart, abortMultipart, array_sort,
    newArray, setAborted, getAborted, send, logger, prisma_file_create,
    prisma_activity_create, bind, ret, throw, try_catch; simpl.

Section Validation.
Variable joi : Joi.

(** A validated value carries the results of the rules on
    [multipart], [uploadId] and [parts], none of which raised an error. *)
Lemma validate_value b v :
  validate b (completeUploadSchema joi) = VValue v →
  multipartSchema joi b = ([], v_multipart v) ∧
  uploadIdSchema joi b = ([], v_uploadId v) ∧
  partsSchema joi b = ([], v_parts v) ∧
  (requiredString "s3Key" 0 None (prop "s3Key" b)).2 = v_s3Key v.
Proof.
  unfold validate, completeUploadSchema. destruct b; try discriminate.
  destruct (requiredString "s3Key" _ _ _) as [e1 x1].
  destruct (multipartSchema _ _) as [e2 x2].
  destruct (uploadIdSchema _ _) as [e3 x3].
  destruct (partsSchema _ _) as [e4 x4].
  destruct (requiredString "fileName" _ _ _) as [e5 x5].
  destruct (requiredString "mimeType" _ _ _) as [e6 x6].
  destruct (requiredInteger _ _ _ _) as [e7 x7].
  destruct (optionalString "encryptedKeyMetadata" _ _ _) as [e8 x8].
  destruct (optionalString "folderId" _ _ _) as [e9 x9].
  destruct (expirySchema _ _) as [e10 x10].
  destruct (e1 ++ _) eqn:E; [|discriminate].
  intros [= <-]. simpl.
  repeat (apply app_eq_nil in E as [? E]). by subst.
Qed.

(** A multipart value has its session identifier and its parts. *)
Lemma validate_multipart b v :
  validate b (completeUploadSchema joi) = VValue v → v_multipart v = true →
  isMultipart joi b = true ∧
  ∃ uploadId ps, v_uploadId v = Some uploadId ∧ v_parts v = Some ps.
Proof.
  intros Hv Hm. apply validate_value in Hv as (H2 & H3 & H4 & _).
  assert (isMultipart joi b = true) as Hb.
  { unfold isMultipart. by rewrite H2. }
  split; [done|].
  unfold uploadIdSchema in H3. unfold partsSchema in H4. rewrite Hb in H3, H4.
  destruct (requiredString _ _ _ _) as [e s]. injection H3 as _ <-.
  destruct (prop "parts" b) as [| |x|q|s'|its|flds]; try discriminate;
    (destruct (asArray joi _); [|discriminate]);
    destruct (itemsSchema _ _ _) as [e' ps]; injection H4 as _ <-; eauto.
Qed.

(** A single-shot value comes from a body without [uploadId]. *)
Lemma validate_single_shot b v :
  validate b (completeUploadSchema joi) = VValue v → v_multipart v = false →
  prop "uploadId" b = JUndefined.
Proof.
  intros Hv Hm. apply validate_value in Hv as (H2 & H3 & _).
  unfold uploadIdSchema, isMultipart in H3. rewrite H2, Hm in H3. simpl in H3.
  by destruct (prop "uploadId" b).
Qed.

Lemma requiredInteger_ok k lo v :
  (requiredInteger joi k lo v).1 = [] →
  ∃ q, asNumber joi v = Some q ∧ isInteger q = true ∧
       lo ≤ toInteger q ≤ 2 ^ 53 - 1.
Proof.
  unfold requiredInteger.
  assert (match asNumber joi v with
          | Some q =>
              if negb (isInteger q) then (err k "number.integer", 0)
              else if bool_decide (2 ^ 53 - 1 < Z.abs (toInteger q))
                   then (err k "number.unsafe", 0)
              else if bool_decide (toInteger q < lo) then (err k "number.min", 0)
              else ([], toInteger q)
          | None => (err k "number.base", 0)
          end.1 = [] →
          ∃ q, asNumber joi v = Some q ∧ isInteger q = true ∧
               lo ≤ toInteger q ≤ 2 ^ 53 - 1) as Hgen.
  { destruct (asNumber joi v) as [q|]; simpl; [|discriminate].
    destruct (isInteger q) eqn:Hq; simpl; [|discriminate].
    case_bool_decide; simpl; [discriminate|].
    case_bool_decide; simpl; [discriminate|].
    intros _. exists q. repeat split; try done; lia. }
  destruct v; try exact Hgen. discriminate.
Qed.

Lemma requiredString_ok k lo hi v :
  (requiredString k lo hi v).1 = [] → ∃ s, v = JStr s ∧ s ≠ "".
Proof.
  unfold requiredString. destruct v as [| | | |s| |]; simpl; try discriminate.
  case_bool_decide; simpl; [discriminate|]. eauto.
Qed.

Lemma partSchema_ok i v :
  (partSchema joi i v).1 = [] → wellFormedPart joi v = true.
Proof.
  unfold partSchema, wellFormedPart.
  assert (match asObject joi v with
          | Some fields =>
              let '(e1, n) := requiredInteger joi "partNumber" 1
                                (assoc "partNumber" fields) in
              let '(e2, t) := requiredString "eTag" 0 None (assoc "eTag" fields) in
              (e1 ++ e2, mkPart n t)
          | None => ([mkFieldError (Index i) "object.base"], mkPart 0 "")
          end.1 = [] →
          match asObject joi v with
          | Some fields =>
              match asNumber joi (assoc "partNumber" fields), assoc "eTag" fields with
              | Some q, JStr t =>
                  isInteger q && bool_decide (1 ≤ toInteger q ≤ 2 ^ 53 - 1)
                  && negb (bool_decide (t = ""))
              | _, _ => false
              end
          | None => false
          end = true) as Hgen.
  { destruct (asObject joi v) as [fields|]; simpl; [|discriminate].
    destruct (requiredInteger _ _ _ _) as [e1 n] eqn:E1.
    destruct (requiredString _ _ _ _) as [e2 t] eqn:E2. simpl.
    intros [-> ->]%app_eq_nil.
    destruct (requiredInteger_ok "partNumber" 1 (assoc "partNumber" fields))
      as (q & -> & -> & Hq); [by rewrite E1|].
    destruct (requiredString_ok "eTag" 0 None (assoc "eTag" fields))
      as (s & -> & Hs); [by rewrite E2|].
    rewrite bool_decide_true by lia. by rewrite bool_decide_false. }
  destruct v; try exact Hgen. discriminate.
Qed.

Lemma itemsSchema_ok l : ∀ i,
  (itemsSchema joi i l).1 = [] → forallb (wellFormedPart joi) l = true.
Proof.
  induction l as [|v l IH]; intros i; simpl; [done|].
  destruct (partSchema joi i v) as [e p] eqn:Ev.
  destruct (itemsSchema joi (S i) l) as [es ps] eqn:El. simpl.
  intros [-> ->]%app_eq_nil.
  rewrite (partSchema_ok i v) by (by rewrite Ev).
  apply (IH (S i)). by rewrite El.
Qed.

(** Without well-formed parts a multipart body does not validate. *)
Lemma validate_malformed_parts b :
  isMultipart joi b = true → wellFormedParts joi (prop "parts" b) = false →
  ∃ errs, errs ≠ [] ∧ validate b (completeUploadSchema joi) = VErrors errs.
Proof.
  intros Hb Hw. destruct (validate b (completeUploadSchema joi)) as [errs|v] eqn:Hv.
  - exists errs. split; [|done]. intros ->.
    unfold validate, completeUploadSchema in Hv. destruct b; try discriminate.
    repeat match type of Hv with
           | context [let '(_, _) := ?x in _] => destruct x
           end.
    by destruct (_ ++ _).
  - apply validate_value in Hv as (_ & _ & H4 & _).
    unfold partsSchema in H4. rewrite Hb in H4. unfold wellFormedParts in Hw.
    destruct (prop "parts" b) as [| |x|q|s|its|flds]; try discriminate;
      (destruct (asArray joi _) as [l|]; [|discriminate]);
      destruct (itemsSchema joi 0 l) as [e ps] eqn:E; injection H4 as -> _;
      rewrite (itemsSchema_ok l 0) in Hw by (by rewrite E); discriminate.
Qed.
End Validation.

(** ** The upload controller *)

Section Controller.
Variable backend : Backend.
Variable genId : nat → string.
Variable joi : Joi.


(** A body that does not validate is answered with status 400 before
    anything else happens. *)
Lemma complete_validation_failure req w errs :
  validate (body req) (completeUploadSchema joi) = VErrors errs →
  complete backend genId joi req w
  = (Ret (Json 400 (PErrors errs)), set_aborted false w).
Proof. intros Hv. run. by rewrite Hv. Qed.

(** C8, as amended: a multipart completion whose [parts] is missing, is
    not an array, or holds an element that is not an object with an
    integer [partNumber] from 1 up and a non-empty string [eTag], is
    answered with status 400 and the validation errors; no command is
    sent to the store, no row is written, and the world is as before
    but for the handler's own flag. *)
Theorem complete_rejects_malformed_parts req w :
  isMultipart joi (body req) = true →
  wellFormedParts joi (prop "parts" (body req)) = false →
  ∃ errs, errs ≠ [] ∧
    complete backend genId joi req w
  = (Ret (Json 400 (PErrors errs)), set_aborted false w).
Proof.
  intros Hb Hw.
  destruct (validate_malformed_parts joi _ Hb Hw) as (errs & Hne & Hv).
  exists errs. split; [done|]. by apply complete_validation_failure.
Qed.

(** C6: when the store refuses both the assembly and the abort, the
    error handed to [next] is the error of the abort; the error of the
    assembly is not reported. *)
Theorem complete_abort_failure_masks_assembly_error req w value userId e1 e2 :
  validate (body req) (completeUploadSchema joi) = VValue value →
  v_multipart value = true →
  auth_userId req = Some userId → userId ≠ "" →
  (∀ log k u ps, backend log (CompleteMultipartUploadCommand k u ps) = S3Failure e1) →
  (∀ log k u, backend log (AbortMultipartUploadCommand k u) = S3Failure e2) →
  (complete backend genId joi req w).1 = Ret (Next e2) ∧
  files (complete backend genId joi req w).2 = files w.
Proof.
  intros Hv Hm Hauth Hne Hc Ha.
  destruct (validate_multipart _ _ _ Hv Hm) as (_ & u & ps & Hu & Hps).
  run. rewrite Hv, Hauth, Hm, Hu, Hps. rewrite bool_decide_false by done. simpl.
  rewrite lookup_app_r, Nat.sub_diag by done. simpl.
  rewrite Hc. simpl. rewrite Ha. simpl.
  destruct (truthy _ && truthy _); simpl; [|done].
  rewrite Ha. simpl. done.
Qed.
(** The row that [prisma.file.create] has just written can be referenced. *)
Lemma created_row_exists (fs : list File) (row : File) (i : string) :
  id row = i → Exists (λ f, id f = i) (fs ++ [row]).
Proof. intros <-. apply Exists_app. right. by constructor. Qed.

(** C3, as amended: for a multipart upload the row is written only
    after the store has confirmed the assembly: a multipart call that
    changes the table [File] has sent exactly one command, the
    assembly of the sorted parts under the request's key and session,
    the store has accepted it, and the one new row carries that key.
    For a single-shot upload the handler sends nothing to the store:
    the row is written on the word of the client. *)
Theorem complete_row_follows_assembly req w value :
  validate (body req) (completeUploadSchema joi) = VValue value →
  let r := complete backend genId joi req w in
  (v_multipart value = true → files r.2 ≠ files w →
     ∃ uploadId ps out f,
       v_uploadId value = Some uploadId ∧ v_parts value = Some ps ∧
       s3log r.2 = s3log w ++
         [(CompleteMultipartUploadCommand (v_s3Key value) uploadId
             ((λ p, (eTag p, partNumber p)) <$> stable_sort byPartNumber ps),
           S3Output out)] ∧
       files r.2 = files w ++ [f] ∧ s3Key f = v_s3Key value ∧
       r.1 = Ret (Json 201 (PFile f))) ∧
  (v_multipart value = false → s3log r.2 = s3log w).
Proof.
  intros Hv. simpl. split.
  - intros Hm. destruct (validate_multipart _ _ _ Hv Hm) as (_ & u & ps & Hu & Hps).
    run. rewrite Hv, Hm, Hu, Hps.
    destruct (auth_userId req) as [userId|]; simpl; [|done].
    case_bool_decide as Hid; simpl; [done|].
    rewrite lookup_app_r, Nat.sub_diag by done. simpl.
    destruct (backend (s3log w) _) as [out|e] eqn:Hb; simpl.
    + case_bool_decide as Hex; simpl.
      { destruct (truthy _ && truthy _); simpl; [|done].
        by destruct (backend _ (AbortMultipartUploadCommand _ _)). }
      rewrite bool_decide_true by by apply created_row_exists. simpl.
      intros _. eexists u, ps, out, _. split_and!; done.
    + destruct (backend _ (AbortMultipartUploadCommand _ _)) eqn:Ha; simpl.
      { intros Hne. by destruct Hne. }
      destruct (truthy _ && truthy _); simpl;
        [|intros Hne; by destruct Hne].
      destruct (backend _ (AbortMultipartUploadCommand (asString _) _)); simpl;
        intros Hne; by destruct Hne.
  - intros Hm. run. rewrite Hv, Hm.
    destruct (auth_userId req) as [userId|]; simpl; [|done].
    case_bool_decide as Hid; simpl; [done|].
    case_bool_decide as Hex; simpl.
    { (* the unique key is taken: the safety net runs only for a body
         that names a multipart session, which this value excludes *)
      rewrite (validate_single_shot joi _ _ Hv Hm). simpl.
      by rewrite andb_false_r. }
    by rewrite bool_decide_true by by apply created_row_exists.
Qed.

End Controller.

(** ** The controller on concrete requests *)

Lemma complete_rejects_malformed_parts_witness :
  ∃ errs, errs ≠ [] ∧
    complete acceptingBackend sampleId strictJoi
      (completionRequest (JBool true) (JStr "u") (JArr [partObject 0 "a"])) emptyWorld
    = (Ret (Json 400 (PErrors errs)), set_aborted false emptyWorld).
Proof.
  exact (complete_rejects_malformed_parts acceptingBackend sampleId strictJoi
           (completionRequest (JBool true) (JStr "u") (JArr [partObject 0 "a"]))
           emptyWorld eq_refl eq_refl).
Defined.

(** C8 as stated fails on the empty list: no rule of the schema bounds
    the length of [parts], so a multipart completion with [parts: []]
    validates, the assembly of no parts is requested from the store and,
    when the store accepts, the row is written. *)
Lemma complete_accepts_empty_parts :
  let req := completionRequest (JBool true) (JStr "u") (JArr []) in
  let r := complete acceptingBackend sampleId strictJoi req emptyWorld in
  isMultipart strictJoi (body req) = true ∧
  prop "parts" (body req) = JArr [] ∧
  s3log r.2 = [(CompleteMultipartUploadCommand "uploads/u1/k" "u" [], S3Output [])] ∧
  ∃ f, r.1 = Ret (Json 201 (PFile f)) ∧ files r.2 = [f].
Proof.
  vm_compute. split_and!; try done. eexists. split; reflexivity.
Qed.

Lemma complete_abort_failure_masks_assembly_error_witness :
  let req := completionRequest (JBool true) (JStr "u")
               (JArr [partObject 2 "b"; partObject 1 "a"]) in
  let r := complete refusingBackend sampleId strictJoi req emptyWorld in
  r.1 = Ret (Next (Error "abort refused")) ∧ files r.2 = files emptyWorld.
Proof.
  intros req.
  refine (complete_abort_failure_masks_assembly_error refusingBackend sampleId
            strictJoi req emptyWorld
            (mkCompleteUpload "uploads/u1/k" true (Some "u")
               (Some [mkPart 2 "b"; mkPart 1 "a"]) "a.txt" "text/plain" 3 None None None)
            "u1" (Error "assembly refused") (Error "abort refused")
            _ eq_refl eq_refl _ _ _).
  - vm_compute. reflexivity.
  - discriminate.
  - reflexivity.
  - reflexivity.
Defined.

(** The same run in full: the abort is sent twice, both times refused,
    and the message of the assembly error appears nowhere in the answer. *)
Lemma complete_abort_failure_trace :
  let req := completionRequest (JBool true) (JStr "u")
               (JArr [partObject 2 "b"; partObject 1 "a"]) in
  let r := complete refusingBackend sampleId strictJoi req emptyWorld in
  r.1 = Ret (Next (Error "abort refused")) ∧
  s3log r.2 =
    [(CompleteMultipartUploadCommand "uploads/u1/k" "u" [("a", 1); ("b", 2)],
      S3Failure (Error "assembly refused"));
     (AbortMultipartUploadCommand "uploads/u1/k" "u", S3Failure (Error "abort refused"));
     (AbortMultipartUploadCommand "uploads/u1/k" "u", S3Failure (Error "abort refused"))].
Proof. vm_compute. done. Qed.

(** When only the assembly is refused, the caller does get its message. *)
Lemma complete_assembly_failure_reported :
  let req := completionRequest (JBool true) (JStr "u")
               (JArr [partObject 2 "b"; partObject 1 "a"]) in
  let backend : Backend :=
    λ _ c, match c with
           | CompleteMultipartUploadCommand _ _ _ => S3Failure (Error "assembly refused")
           | _ => S3Output []
           end in
  (complete backend sampleId strictJoi req emptyWorld).1
  = Ret (Next (Error "Multipart upload failed and aborted: assembly refused")).
Proof. vm_compute. done. Qed.

Lemma complete_row_follows_assembly_witness :
  let req := completionRequest (JBool true) (JStr "u")
               (JArr [partObject 2 "b"; partObject 1 "a"]) in
  let r := complete acceptingBackend sampleId strictJoi req emptyWorld in
  ∃ uploadId ps out f,
    Some "u" = Some uploadId ∧ Some [mkPart 2 "b"; mkPart 1 "a"] = Some ps ∧
    s3log r.2 = s3log emptyWorld ++
      [(CompleteMultipartUploadCommand "uploads/u1/k" uploadId
          ((λ p, (eTag p, partNumber p)) <$> stable_sort byPartNumber ps),
        S3Output out)] ∧
    files r.2 = files emptyWorld ++ [f] ∧ s3Key f = "uploads/u1/k" ∧
    r.1 = Ret (Json 201 (PFile f)).
Proof.
  intros req.
  refine (proj1 (complete_row_follows_assembly acceptingBackend sampleId strictJoi
            req emptyWorld
            (mkCompleteUpload "uploads/u1/k" true (Some "u")
               (Some [mkPart 2 "b"; mkPart 1 "a"]) "a.txt" "text/plain" 3 None None None)
            _) eq_refl _).
  - vm_compute. reflexivity.
  - vm_compute. discriminate.
Defined.

(** C3 as stated fails for single-shot uploads: the handler writes the
    row although no command was ever sent to the store, so nothing has
    confirmed that the object is there. *)
Lemma complete_single_shot_unconfirmed :
  let req := completionRequest JUndefined JUndefined JUndefined in
  let r := complete acceptingBackend sampleId strictJoi req emptyWorld in
  s3log emptyWorld = [] ∧ s3log r.2 = [] ∧
  ∃ f, files r.2 = [f] ∧ s3Key f = "uploads/u1/k" ∧ r.1 = Ret (Json 201 (PFile f)).
Proof.
  vm_compute. split_and!; try done. eexists. split_and!; reflexivity.
Qed.

(** ** The metadata store *)

(** Rows are told apart by their [id] ([File_pkey]). *)
Lemma unique_id (fs : list File) (f g : File) :
  NoDup (id <$> fs) → f ∈ fs → g ∈ fs → id f = id g → f = g.
Proof.
  induction fs as [|h fs IH]; simpl; intros Hnd Hf Hg Hid.
  - by apply elem_of_nil in Hf.
  - apply NoDup_cons in Hnd as [Hh Hnd].
    apply elem_of_cons in Hf as [->|Hf]; apply elem_of_cons in Hg as [->|Hg].
    + done.
    + destruct Hh. rewrite Hid. by apply list_elem_of_fmap_2.
    + destruct Hh. rewrite <- Hid. by apply list_elem_of_fmap_2.
    + by apply IH.
Qed.

Lemma logDeletionActivity_present file reason status error w :
  Exists (λ f, id f = id file) (files w) →
  logDeletionActivity file reason status error w =
    (Ret tt,
     set_deletionActivities
       (deletionActivities w ++ [deletionActivityData file reason status error]) w).
Proof.
  intros H. unfold logDeletionActivity, try_catch, prisma_deletionActivity_create.
  simpl. by rewrite bool_decide_true.
Qed.

Lemma logDeletionActivity_absent file reason status error w :
  ¬ Exists (λ f, id f = id file) (files w) →
  logDeletionActivity file reason status error w =
    (Ret tt,
     set_logs (logs w ++ [(LError, "Failed to log deletion activity for file %s: %s")]) w).
Proof.
  intros H. unfold logDeletionActivity, try_catch, prisma_deletionActivity_create.
  simpl. by rewrite bool_decide_false.
Qed.

(** ** Stage 1: the soft-delete drain *)

Lemma softDeleteFile_hit now file w :
  updateFaults w = [] →
  Exists (λ f, id f = id file ∧ deletedAt f = None) (files w) →
  softDeleteFile now file w =
    (Ret tt,
     set_filesProcessed (S (filesProcessed w))
       (set_logs (logs w ++ [(LInfo, "Soft-deleted file record: %s (s3Key: %s)")])
          (set_deletionActivities
             (deletionActivities w ++
                [deletionActivityData file "expired" SUCCESS_SOFT_DELETE None])
             (set_files (updateRow (id file) now <$> files w) w)))).
Proof.
  intros Hnf H. unfold softDeleteFile. unfold try_catch. unfold bind at 1.
  unfold prisma_file_update. rewrite Hnf. unfold conditionalUpdate.
  rewrite bool_decide_true by done. simpl.
  unfold bind at 1. rewrite logDeletionActivity_present; [reflexivity|].
  simpl. apply Exists_fmap. eapply Exists_impl; [exact H|].
  intros f [Hf ?]. simpl. unfold updateRow. by rewrite bool_decide_true.
Qed.


(** The update rejected by the database for a reason of its own: the row
    is left as it was and is not counted; the failure is logged and, as
    the row is still there, entered in the audit log as [FAILED_DB]. *)
Lemma softDeleteFile_fault now file w e faults :
  updateFaults w = Some e :: faults →
  code e ≠ Some "P2025" →
  Exists (λ f, id f = id file) (files w) →
  softDeleteFile now file w =
    (Ret tt,
     set_deletionActivities
       (deletionActivities w ++
          [deletionActivityData file "expired" FAILED_DB (Some e)])
       (set_logs (logs w ++ [(LError, "Error marking file %s as soft-deleted: %s")])
          (set_updateFaults faults w))).
Proof.
  intros Hf Hcode H. unfold softDeleteFile. unfold try_catch. unfold bind at 1.
  unfold prisma_file_update. rewrite Hf.
  rewrite bool_decide_false by done. unfold bind, logger.
  by rewrite logDeletionActivity_present.
Qed.

Lemma id_set_deletedAt f t : id (set_deletedAt f t) = id f.
Proof. done. Qed.

Lemma markDeleted_ids now ids (fs : list File) :
  id <$> (markDeleted now ids <$> fs) = id <$> fs.
Proof.
  rewrite <- list_fmap_compose. apply list_fmap_ext. intros i f _. simpl.
  unfold markDeleted. by case_bool_decide.
Qed.

(** One more conditional update on a table already marked. *)
Lemma markDeleted_step now ids (fs : list File) x :
  NoDup (id <$> fs) → x ∈ fs → deletedAt x = None → id x ∉ ids →
  updateRow (id x) now <$> (markDeleted now ids <$> fs)
  = markDeleted now (ids ++ [id x]) <$> fs.
Proof.
  intros Hnd Hx Hnone Hnot. rewrite <- list_fmap_compose.
  apply Forall_fmap_ext, Forall_forall. intros g Hg. simpl.
  unfold updateRow, markDeleted.
  destruct (decide (id g ∈ ids)) as [Hin|Hin].
  - rewrite (bool_decide_true (id g ∈ ids)) by done.
    rewrite bool_decide_false by (simpl; intros [_ ?]; done).
    rewrite bool_decide_true; [done|]. apply elem_of_app. by left.
  - rewrite (bool_decide_false (id g ∈ ids)) by done.
    destruct (decide (id g = id x)) as [Heq|Hne].
    + assert (g = x) as -> by (by eapply unique_id).
      rewrite bool_decide_true by done.
      rewrite bool_decide_true; [done|]. apply elem_of_app. right. by left.
    + rewrite bool_decide_false by (intros [? _]; done).
      rewrite bool_decide_false; [done|].
      intros [?|?%list_elem_of_singleton]%elem_of_app; done.
Qed.

(** What [findMany] returns: rows of the table that satisfy the filter,
    no row twice, and nothing only if nothing qualifies. *)
Lemma findMany_batch (P : File → bool) (n : nat) (fs : list File) :
  let batch := take n (stable_sort byId (filter (λ f, P f) fs)) in
  (∀ x, x ∈ batch → x ∈ fs ∧ P x = true) ∧
  (NoDup (id <$> fs) → NoDup (id <$> batch)) ∧
  ((0 < n)%nat → batch = [] → filter (λ f, P f) fs = []).
Proof.
  simpl. split_and!.
  - intros x Hx%subseteq_take. rewrite stable_sort_perm in Hx.
    apply list_elem_of_filter in Hx as [HP Hx]. split; [done|].
    by apply Is_true_true.
  - intros Hnd. eapply sublist_NoDup; [|apply fmap_sublist, sublist_take].
    rewrite stable_sort_perm.
    eapply sublist_NoDup; [exact Hnd|]. apply fmap_sublist, sublist_filter.
  - intros Hn [->|Hnil]%take_nil_inv; [lia|].
    apply Permutation_nil_r. by rewrite <- Hnil, stable_sort_perm.
Qed.

Section SoftDeleteDrain.
Variable now : Z.
(** The table and the audit log when the stage starts. *)
Variable fs0 : list File.
Variable log0 : list DeletionActivity.
Hypothesis fs0_unique : NoDup (id <$> fs0).

Lemma forOf_softDelete (l : list File) : ∀ done w,
  drained now fs0 log0 done w →
  Forall (λ f, f ∈ fs0 ∧ deletedAt f = None) l →
  NoDup (id <$> (done ++ l)) →
  ∃ w', forOf l (softDeleteFile now) w = (Ret tt, w') ∧ drained now fs0 log0 (done ++ l) w'.
Proof.
  induction l as [|x l IH]; intros done w Hw Hall Hnd.
  - exists w. by rewrite app_nil_r.
  - apply Forall_cons in Hall as [[Hx Hnone] Hall].
    assert (id x ∉ id <$> done) as Hfresh.
    { rewrite fmap_app in Hnd. apply NoDup_app in Hnd as (_ & Hdis & _).
      intros Hin. apply (Hdis _ Hin). rewrite fmap_cons. left. }
    destruct Hw as (Hfiles & Hlog & Hcount & Hnf).
    simpl. unfold bind at 1. rewrite softDeleteFile_hit; [|done|].
    2:{ apply Exists_exists. exists x. split; [|done].
        rewrite Hfiles. apply list_elem_of_fmap. exists x. split; [|done].
        unfold markDeleted. by rewrite bool_decide_false. }
    replace (done ++ x :: l) with ((done ++ [x]) ++ l) in * by by rewrite <- app_assoc.
    apply IH; [|done..].
    split_and!; simpl.
    + rewrite Hfiles, fmap_app. simpl. by apply markDeleted_step.
    + by rewrite Hlog, fmap_app, app_assoc.
    + rewrite Hcount, length_app. simpl. lia.
    + done.
Qed.

(** A fetched row is a row of the initial table that no earlier
    iteration has handled. *)
Lemma fetched_row done w x :
  files w = markDeleted now (id <$> done) <$> fs0 →
  x ∈ files w → expiredNotDeleted now x = true →
  x ∈ fs0 ∧ deletedAt x = None ∧ id x ∉ id <$> done.
Proof.
  intros Hfiles Hx Hel. rewrite Hfiles in Hx.
  apply list_elem_of_fmap in Hx as (g & -> & Hg).
  unfold markDeleted in *. case_bool_decide as Hin.
  - unfold expiredNotDeleted in Hel. simpl in Hel. by destruct (expiry g).
  - split_and!; [done| |done].
    unfold expiredNotDeleted in Hel. destruct (expiry g), (deletedAt g); done.
Qed.

Lemma handled_bound (done : list File) :
  Forall (λ f, f ∈ fs0) done → NoDup (id <$> done) →
  (length done ≤ length fs0)%nat.
Proof.
  intros Hall Hnd.
  rewrite <- (length_fmap id done), <- (length_fmap id fs0).
  apply submseteq_length, NoDup_submseteq; [done|].
  intros i (f & -> & Hf)%list_elem_of_fmap.
  apply list_elem_of_fmap_2. rewrite Forall_forall in Hall. by apply Hall.
Qed.

(** The loop ends, and when it ends nothing is left to soft-delete. *)
Lemma softDeleteLoop_drains (fuel : nat) : ∀ done w,
  drained now fs0 log0 done w →
  Forall (λ f, f ∈ fs0 ∧ expiredNotDeleted now f = true) done →
  NoDup (id <$> done) →
  (length fs0 < fuel + length done)%nat →
  ∃ done' w',
    softDeleteLoop fuel now w = (Ret tt, w') ∧
    drained now fs0 log0 done' w' ∧
    Forall (λ f, f ∈ fs0 ∧ expiredNotDeleted now f = true) done' ∧
    NoDup (id <$> done') ∧
    filter (λ f, expiredNotDeleted now f) (files w') = [].
Proof.
  induction fuel as [|fuel IH]; intros done w Hw Hall Hnd Hfuel.
  { assert (length done ≤ length fs0)%nat; [|lia].
    apply handled_bound; [|done]. eapply Forall_impl; [exact Hall|]. by intros ? []. }
  simpl. unfold bind at 1, prisma_file_findMany.
  destruct (findMany_batch (expiredNotDeleted now) BATCH_SIZE (files w))
    as (Hin & Hbnd & Hnil).
  set (batch := take BATCH_SIZE _) in *.
  case_bool_decide as Hlen.
  - exists done, (set_logs (logs w ++ [(LInfo,
      "No more expired files found for soft deletion. Stage 1 finished.")]) w).
    split_and!; try done.
    apply Hnil; [unfold BATCH_SIZE; lia|]. by apply nil_length_inv.
  - assert (∀ x, x ∈ batch → x ∈ fs0 ∧ deletedAt x = None ∧ id x ∉ id <$> done) as Hrow.
    { intros x [Hx Hel]%Hin. destruct Hw as (Hfiles & _). by eapply fetched_row. }
    assert (NoDup (id <$> batch)) as Hbatch.
    { apply Hbnd. destruct Hw as (-> & _). by rewrite markDeleted_ids. }
    unfold bind at 1, logger at 1. unfold bind at 1.
    destruct (forOf_softDelete batch done
                (set_logs (logs w ++ [(LInfo, "Found %d expired files to soft-delete.")]) w))
      as (w1 & -> & Hw1).
    { done. }
    { apply Forall_forall. intros x Hx. destruct (Hrow x Hx) as (? & ? & ?). done. }
    { rewrite fmap_app. apply NoDup_app. split_and!; [done| |done].
      intros i Hi (x & -> & Hx)%list_elem_of_fmap.
      destruct (Hrow x Hx) as (_ & _ & Hfresh). done. }
    destruct (IH (done ++ batch) w1) as (done' & w' & Hrun & Hw' & Hall' & Hnd' & Hnil').
    { done. }
    { apply Forall_app. split; [done|]. apply Forall_forall. intros x Hx.
      destruct (Hin x Hx) as [_ Hel]. destruct (Hrow x Hx) as (? & _). done. }
    { rewrite fmap_app. apply NoDup_app. split_and!; [done| |done].
      intros i Hi (x & -> & Hx)%list_elem_of_fmap.
      destruct (Hrow x Hx) as (_ & _ & Hfresh). done. }
    { rewrite length_app. destruct batch; [done|]. simpl in *. lia. }
    exists done', w'. split_and!; try done.
Qed.
End SoftDeleteDrain.

Lemma markDeleted_nil now (fs : list File) : markDeleted now [] <$> fs = fs.
Proof.
  rewrite <- (list_fmap_id fs) at 2. apply list_fmap_ext. intros i f _.
  unfold markDeleted. rewrite bool_decide_false; [done|]. apply not_elem_of_nil.
Qed.



(** The [where] of stage 1 selects the rows that are due. *)
Lemma expiredNotDeleted_due now f :
  expiredNotDeleted now f = true ↔ dueForSoftDelete now f.
Proof.
  unfold expiredNotDeleted, dueForSoftDelete. split.
  - destruct (expiry f) as [e|], (deletedAt f); try done.
    intros H%bool_decide_eq_true. by exists e.
  - intros (e & -> & H & ->). by apply bool_decide_eq_true.
Qed.



(** ** Stage 2: the hard-delete drain *)

(** The flaw behind the partial-failure behaviour: as soon as the store
    reports one failed key, the result says that nothing was deleted. *)
Lemma deleteS3Objects_partial_failure backend keys errs w :
  keys ≠ [] → errs ≠ [] →
  backend (s3log w) (DeleteObjectsCommand keys) = S3Output errs →
  (deleteS3Objects backend keys w).1 = Ret (mkDeletionResult [] errs).
Proof.
  intros Hk He Hb. unfold deleteS3Objects.
  rewrite bool_decide_false by (by destruct keys).
  unfold try_catch, bind, send. rewrite Hb. simpl.
  rewrite bool_decide_true; [done|]. destruct errs; [done|simpl; lia].
Qed.

Lemma logDeletionActivity_files file reason status error w :
  ∃ w', logDeletionActivity file reason status error w = (Ret tt, w') ∧
        files w' = files w.
Proof.
  destruct (decide (Exists (λ f, id f = id file) (files w))) as [H|H].
  - eexists. split; [by apply logDeletionActivity_present|done].
  - eexists. split; [by apply logDeletionActivity_absent|done].
Qed.

(** No row is removed for a key that is not reported deleted. *)
Lemma forOf_hardDelete_none (l : list File) : ∀ w,
  ∃ w', forOf l (hardDeleteFile []) w = (Ret tt, w') ∧ files w' = files w.
Proof.
  induction l as [|x l IH]; intros w; [by exists w|].
  simpl. unfold bind at 1, hardDeleteFile.
  rewrite bool_decide_false by apply not_elem_of_nil.
  unfold bind at 1, logger at 1.
  destruct (logDeletionActivity_files x "hard_delete" FAILED_S3
              (Some (Error "S3 deletion failed after retries"))
              (set_logs (logs w ++ [(LWarn,
                 "S3 hard deletion failed for %s. Skipping DB deletion and logging as failed.")]) w))
    as (w1 & -> & Hw1).
  destruct (IH w1) as (w2 & Hrun & Hw2). exists w2. split; [exact Hrun|].
  by rewrite Hw2, Hw1.
Qed.

Section StuckDrain.
Variable backend : Backend.
(** The store never deletes a whole batch: each call is rejected or
    reports some failed key. *)
Hypothesis never_clean :
  ∀ log keys, keys ≠ [] → backend log (DeleteObjectsCommand keys) ≠ S3Output [].

Lemma deleteS3Objects_nothing keys w :
  ∃ r w', deleteS3Objects backend keys w = (Ret r, w') ∧
          files w' = files w ∧ deleted r = [].
Proof.
  unfold deleteS3Objects. case_bool_decide as Hk.
  { by eexists _, w. }
  unfold try_catch, bind, send.
  destruct (backend (s3log w) (DeleteObjectsCommand keys)) as [errs|e] eqn:Hb; simpl.
  - case_bool_decide as He; simpl; [by eexists _, _|].
    destruct errs; [|simpl in He; lia].
    destruct (never_clean (s3log w) keys); [by destruct keys|done].
  - by eexists _, _.
Qed.

Lemma s3DeleteWithRetry_nothing (n : nat) : ∀ r w,
  deleted r = [] →
  ∃ r' w', s3DeleteWithRetry backend n r w = (Ret r', w') ∧
           files w' = files w ∧ deleted r' = [].
Proof.
  induction n as [|n IH]; intros r w Hr; simpl.
  { by exists r, w. }
  unfold bind at 1.
  destruct (deleteS3Objects_nothing (errors r) w) as (r1 & w1 & -> & Hw1 & Hr1).
  case_bool_decide; [by exists r1, w1|].
  unfold bind, logger, sleep. simpl.
  edestruct (IH r1) as (r2 & w2 & -> & Hw2 & Hr2); [done|].
  exists r2, w2. split_and!; [done| |done]. by rewrite Hw2.
Qed.

Lemma hardDeleteBatch_nothing (batch : list File) w :
  ∃ w', hardDeleteBatch backend batch w = (Ret tt, w') ∧ files w' = files w.
Proof.
  unfold hardDeleteBatch, bind at 1, logger at 1. unfold bind at 1.
  edestruct (s3DeleteWithRetry_nothing RETRY_ATTEMPTS) as (r & w1 & -> & Hw1 & ->);
    [done|].
  destruct (forOf_hardDelete_none batch w1) as (w2 & -> & Hw2).
  exists w2. split; [done|]. by rewrite Hw2, Hw1.
Qed.

(** With a row to purge and such a store, the loop is still running
    after any number of iterations. *)
Lemma hardDeleteLoop_stuck (cutoff : Z) (fuel : nat) : ∀ w,
  filter (λ f, softDeletedBefore cutoff f) (files w) ≠ [] →
  (hardDeleteLoop backend fuel cutoff w).1 = OutOfFuel.
Proof.
  induction fuel as [|fuel IH]; intros w Hrow; [done|].
  simpl. unfold bind at 1, prisma_file_findMany.
  destruct (findMany_batch (softDeletedBefore cutoff) BATCH_SIZE (files w))
    as (_ & _ & Hnil).
  rewrite bool_decide_false.
  2:{ intros Hlen%nil_length_inv. apply Hrow, Hnil; [unfold BATCH_SIZE; lia|done]. }
  unfold bind at 1.
  destruct (hardDeleteBatch_nothing
              (take BATCH_SIZE (stable_sort byId
                 (filter (λ f, softDeletedBefore cutoff f) (files w)))) w)
    as (w1 & -> & Hw1).
  apply IH. by rewrite Hw1.
Qed.

Lemma hardDeleteSoftDeletedFiles_stuck (retention : Z) (fuel : nat) w :
  filter (λ f, softDeletedBefore (clock w - retention * 60 * 1000) f) (files w) ≠ [] →
  (hardDeleteSoftDeletedFiles backend retention fuel w).1 = OutOfFuel.
Proof.
  intros Hrow.
  unfold hardDeleteSoftDeletedFiles, bind, logger, newDate, resetFilesProcessed,
    try_catch. simpl.
  set (w1 := set_filesProcessed _ _).
  pose proof (hardDeleteLoop_stuck (clock w - retention * 60 * 1000) fuel w1 Hrow) as H.
  by destruct (hardDeleteLoop _ _ _ _) as [[| |] ?].
Qed.
End StuckDrain.

(** *** Rows that the audit log references *)

Section BlockedDrain.
Variable backend : Backend.

Lemma deleteS3Objects_tables keys w :
  ∃ r w', deleteS3Objects backend keys w = (Ret r, w') ∧
          files w' = files w ∧ deletionActivities w' = deletionActivities w.
Proof.
  unfold deleteS3Objects. case_bool_decide as Hk.
  { by eexists _, w. }
  unfold try_catch, bind, send.
  destruct (backend (s3log w) (DeleteObjectsCommand keys)) as [errs|e]; simpl.
  - case_bool_decide; simpl; by eexists _, _.
  - by eexists _, _.
Qed.

Lemma s3DeleteWithRetry_tables (n : nat) : ∀ r w,
  ∃ r' w', s3DeleteWithRetry backend n r w = (Ret r', w') ∧
           files w' = files w ∧ deletionActivities w' = deletionActivities w.
Proof.
  induction n as [|n IH]; intros r w; simpl.
  { by exists r, w. }
  unfold bind at 1.
  destruct (deleteS3Objects_tables (errors r) w) as (r1 & w1 & -> & Hf1 & Hd1).
  case_bool_decide; [by exists r1, w1|].
  unfold bind, logger, sleep. simpl.
  edestruct (IH r1) as (r2 & w2 & -> & Hf2 & Hd2).
  exists r2, w2. split_and!; [done|by rewrite Hf2|by rewrite Hd2].
Qed.

(** The delete of a referenced row is refused; the row stays and the
    log grows by the entry of the failure. *)
Lemma hardDeleteFile_blocked keys file w :
  Exists (λ d, da_fileId d = id file) (deletionActivities w) →
  ∃ w' extra, hardDeleteFile keys file w = (Ret tt, w') ∧
    files w' = files w ∧ deletionActivities w' = deletionActivities w ++ extra.
Proof.
  intros Href. unfold hardDeleteFile. case_bool_decide as Hk.
  - unfold try_catch, bind at 1, prisma_file_delete.
    case_bool_decide as Hrow.
    + rewrite bool_decide_true by done. simpl. unfold bind, logger. simpl.
      rewrite logDeletionActivity_present by done. by eexists _, [_].
    + simpl. unfold bind, logger. simpl.
      rewrite logDeletionActivity_absent by done. eexists _, [].
      by rewrite app_nil_r.
  - unfold bind, logger. simpl.
    destruct (decide (Exists (λ f, id f = id file) (files w))) as [H|H].
    + rewrite logDeletionActivity_present by done. by eexists _, [_].
    + rewrite logDeletionActivity_absent by done. eexists _, [].
      by rewrite app_nil_r.
Qed.

Lemma forOf_hardDelete_blocked keys (l : list File) : ∀ w,
  Forall (λ f, Exists (λ d, da_fileId d = id f) (deletionActivities w)) l →
  ∃ w' extra, forOf l (hardDeleteFile keys) w = (Ret tt, w') ∧
    files w' = files w ∧ deletionActivities w' = deletionActivities w ++ extra.
Proof.
  induction l as [|x l IH]; intros w Hall.
  { exists w, []. by rewrite app_nil_r. }
  apply Forall_cons in Hall as [Hx Hall].
  destruct (hardDeleteFile_blocked keys x w Hx) as (w1 & ex1 & Hrun1 & Hf1 & Hd1).
  destruct (IH w1) as (w2 & ex2 & Hrun2 & Hf2 & Hd2).
  { eapply Forall_impl; [exact Hall|]. intros f Hf. rewrite Hd1.
    apply Exists_app. by left. }
  exists w2, (ex1 ++ ex2). simpl. unfold bind at 1. rewrite Hrun1.
  split_and!; [done|by rewrite Hf2|by rewrite Hd2, Hd1, app_assoc].
Qed.

(** Whatever the store does, a drain that finds rows to purge, all of
    them referenced by audit entries (as every row is that stage 1
    soft-deleted), is still running after any number of iterations. *)
Lemma hardDeleteLoop_blocked (cutoff : Z) (fuel : nat) : ∀ w,
  filter (λ f, softDeletedBefore cutoff f) (files w) ≠ [] →
  (∀ f, f ∈ files w → softDeletedBefore cutoff f = true →
        Exists (λ d, da_fileId d = id f) (deletionActivities w)) →
  (hardDeleteLoop backend fuel cutoff w).1 = OutOfFuel.
Proof.
  induction fuel as [|fuel IH]; intros w Hrow Href; [done|].
  simpl. unfold bind at 1, prisma_file_findMany.
  destruct (findMany_batch (softDeletedBefore cutoff) BATCH_SIZE (files w))
    as (Hin & _ & Hnil).
  set (batch := take BATCH_SIZE _) in *.
  rewrite bool_decide_false.
  2:{ intros Hlen%nil_length_inv. apply Hrow, Hnil; [unfold BATCH_SIZE; lia|done]. }
  unfold bind at 1, hardDeleteBatch, bind at 1, logger at 1. unfold bind at 1.
  edestruct (s3DeleteWithRetry_tables RETRY_ATTEMPTS) as (r & w1 & -> & Hf1 & Hd1).
  destruct (forOf_hardDelete_blocked (deleted r) batch w1)
    as (w2 & extra & -> & Hf2 & Hd2).
  { apply Forall_forall. intros f [Hf Hel]%Hin. rewrite Hd1. by apply Href. }
  apply IH.
  - by rewrite Hf2, Hf1.
  - intros f Hf Hel. rewrite Hd2, Hd1. apply Exists_app. left.
    apply Href; [|done]. by rewrite Hf2, Hf1 in Hf.
Qed.

Lemma hardDeleteSoftDeletedFiles_blocked (retention : Z) (fuel : nat) w :
  let cutoff := clock w - retention * 60 * 1000 in
  filter (λ f, softDeletedBefore cutoff f) (files w) ≠ [] →
  (∀ f, f ∈ files w → softDeletedBefore cutoff f = true →
        Exists (λ d, da_fileId d = id f) (deletionActivities w)) →
  (hardDeleteSoftDeletedFiles backend retention fuel w).1 = OutOfFuel.
Proof.
  intros cutoff Hrow Href.
  unfold hardDeleteSoftDeletedFiles, bind, logger, newDate, resetFilesProcessed,
    try_catch. simpl.
  set (w1 := set_filesProcessed _ _).
  pose proof (hardDeleteLoop_blocked cutoff fuel w1 Hrow Href) as H.
  by destruct (hardDeleteLoop _ _ _ _) as [[| |] ?].
Qed.
End BlockedDrain.

(** ** The cleanup on concrete stores *)

(** C1: the batch of five of which the store fails two.  The two failed
    keys, and only they, are sent again, twice, 5000 ms apart; but after
    the last try the three rows whose objects the store did delete are
    kept and get a [FAILED_S3] entry like the two others: no row is
    removed and no [SUCCESS_HARD_DELETE] entry is written. *)
Theorem hardDelete_partial_failure_purges_nothing :
  let w := cleanupWorld fiveFiles 10000000 in
  let r := hardDeleteBatch partialBackend fiveFiles w in
  r.1 = Ret tt ∧
  s3log r.2 =
    [(DeleteObjectsCommand ["k1"; "k2"; "k3"; "k4"; "k5"], S3Output ["k4"; "k5"]);
     (DeleteObjectsCommand ["k4"; "k5"], S3Output ["k4"; "k5"]);
     (DeleteObjectsCommand ["k4"; "k5"], S3Output ["k4"; "k5"])] ∧
  files r.2 = fiveFiles ∧
  (λ d, (da_fileId d, da_status d)) <$> deletionActivities r.2 =
    [("1", FAILED_S3); ("2", FAILED_S3); ("3", FAILED_S3);
     ("4", FAILED_S3); ("5", FAILED_S3)] ∧
  filesProcessed r.2 = 0%nat ∧
  clock r.2 = clock w + 3 * RETRY_DELAY_MS.
Proof. vm_compute. done. Qed.

(** The hard-delete step never writes a [SUCCESS_HARD_DELETE] entry, and
    never removes a row that an audit entry references: every entry it
    adds reports a failure. *)
Lemma hardDeleteFile_audit keys file w :
  let w' := (hardDeleteFile keys file w).2 in
  (∀ d, d ∈ deletionActivities w' →
        d ∈ deletionActivities w ∨ da_status d ≠ SUCCESS_HARD_DELETE) ∧
  (Exists (λ d, da_fileId d = id file) (deletionActivities w) → files w' = files w).
Proof.
  simpl. destruct (hardDeleteFile keys file w) as [o w'] eqn:E. simpl.
  revert E. unfold hardDeleteFile. case_bool_decide as Hk.
  - unfold try_catch, bind at 1, prisma_file_delete.
    case_bool_decide as Hrow; [case_bool_decide as Href|].
    + simpl. unfold bind, logger. simpl.
      rewrite logDeletionActivity_present by done. simpl. intros [= <- <-].
      split; [|done]. simpl.
      intros d [Hd| ->%list_elem_of_singleton]%elem_of_app; [by left|by right].
    + simpl. unfold bind at 1. rewrite logDeletionActivity_absent.
      2:{ simpl. rewrite Exists_exists.
          intros (f & [? Hf]%list_elem_of_filter & Hid). done. }
      simpl. intros [= <- <-]. simpl. split; [by left|done].
    + simpl. unfold bind, logger. simpl.
      rewrite logDeletionActivity_absent by done. simpl. intros [= <- <-].
      simpl. split; [by left|done].
  - unfold bind, logger. simpl.
    destruct (decide (Exists (λ f, id f = id file) (files w))) as [H|H].
    + rewrite logDeletionActivity_present by done. simpl. intros [= <- <-].
      split; [|done]. simpl.
      intros d [Hd| ->%list_elem_of_singleton]%elem_of_app; [by left|by right].
    + rewrite logDeletionActivity_absent by done. simpl. intros [= <- <-].
      simpl. split; [by left|done].
Qed.

(** C2: with a store that deletes everything.  A row without audit
    entries is purged and counted, yet the log has no entry for it: the
    [SUCCESS_HARD_DELETE] entry is refused because its [fileId] no longer
    names a row.  A row that does have its [SUCCESS_SOFT_DELETE] entry
    cannot be removed at all: the delete is refused (P2003), the row
    stays and a [FAILED_DB] entry is added. *)
Theorem hardDelete_purge_leaves_no_entry :
  (let r := hardDeleteSoftDeletedFiles acceptingBackend 10 2 staleWorld in
   r.1 = Ret 1%nat ∧ files r.2 = [] ∧ deletionActivities r.2 = [] ∧
   (LError, "Failed to log deletion activity for file %s: %s") ∈ logs r.2) ∧
  (let row := fileRow "1" "k1" (Some 5) (Some 0) in
   let w := set_deletionActivities [softDeleteEntry row] staleWorld in
   let r := hardDeleteBatch acceptingBackend [row] w in
   r.1 = Ret tt ∧ files r.2 = [row] ∧
   deletionActivities r.2 =
     [softDeleteEntry row;
      deletionActivityData row "hard_delete" FAILED_DB (Some P2003)]).
Proof.
  split.
  - vm_compute. split_and!; try done. repeat first [by left | right].
  - vm_compute. done.
Qed.

(** The life of one object under a store that never fails: stage 1
    soft-deletes it and logs the entry; once the retention has passed,
    stage 2 cannot purge it and does not return. *)
Lemma hardDelete_after_softDelete_never_returns (fuel : nat) :
  let w0 := cleanupWorld [fileRow "a" "ka" (Some 5) None] 10 in
  let w1 := (softDeleteExpiredFiles 2 w0).2 in
  (softDeleteExpiredFiles 2 w0).1 = Ret 1%nat ∧
  (hardDeleteSoftDeletedFiles acceptingBackend 10 fuel (set_clock 10000000 w1)).1
  = OutOfFuel.
Proof.
  split; [done|]. apply hardDeleteSoftDeletedFiles_blocked.
  - vm_compute. discriminate.
  - intros f Hf _. vm_compute in Hf. apply list_elem_of_singleton in Hf as ->.
    vm_compute. by constructor.
Qed.

(** C4: with one row to purge and a store that rejects the batched
    delete, the drain has not returned after any number of iterations:
    the row that failed is fetched again by the next iteration. *)
Theorem hardDelete_drain_never_returns (fuel : nat) :
  (hardDeleteSoftDeletedFiles failingBackend 10 fuel staleWorld).1 = OutOfFuel.
Proof.
  apply hardDeleteSoftDeletedFiles_stuck.
  - intros log keys _. discriminate.
  - vm_compute. discriminate.
Qed.

(** The cleanup never throws: it returns its report or is still running. *)
Lemma runCleanup_never_throws backend retention fuel w e :
  (runCleanup backend retention fuel w).1 ≠ Throw e.
Proof.
  unfold runCleanup, bind, try_catch, logger, ret. simpl.
  destruct (softDeleteExpiredFiles fuel _) as [[n1|e1|] w1]; simpl;
    try destruct (hardDeleteSoftDeletedFiles backend retention fuel _) as [[n2|e2|] w2];
    simpl; done.
Qed.

(** C9: on the same store the cleanup returns no report at all: it
    neither throws nor comes back from the hard-delete stage. *)
Theorem runCleanup_never_returns (fuel : nat) :
  (runCleanup failingBackend 10 fuel staleWorld).1 = OutOfFuel.
Proof.
  destruct fuel as [|fuel]; [done|].
  unfold runCleanup, bind at 1, logger at 1. unfold bind at 1, try_catch at 1.
  destruct (softDeleteExpiredFiles (S fuel) _) as [o w1] eqn:Hsoft.
  assert (files w1 = files staleWorld ∧ clock w1 = clock staleWorld ∧ ∃ n, o = Ret n)
    as (Hf & Hc & n & ->).
  { revert Hsoft. unfold softDeleteExpiredFiles, bind, logger, newDate,
      resetFilesProcessed, try_catch, getFilesProcessed. simpl.
    intros [= <- <-]. eauto. }
  unfold bind at 1, try_catch at 1.
  pose proof (hardDeleteSoftDeletedFiles_stuck failingBackend
                ltac:(intros ? ? _; discriminate) 10 (S fuel) w1) as Hstuck.
  destruct (hardDeleteSoftDeletedFiles _ _ _ w1) as [o2 w2].
  simpl in Hstuck. rewrite Hstuck; [done|].
  rewrite Hf, Hc. vm_compute. discriminate.
Qed.

(** * Further properties *)

(** ** The batched delete and its retries *)


(** The retry loop never throws, leaves the tables alone, and sends at
    most [attempts] commands, each with the keys that the answer before
    left undeleted; it sleeps [RETRY_DELAY_MS] after each answer that left
    keys, so the clock advances by at most [attempts] delays. *)
Theorem s3DeleteWithRetry_trace backend (attempts : nat) : ∀ r w,
  ∃ r' w' entries,
    s3DeleteWithRetry backend attempts r w = (Ret r', w') ∧
    files w' = files w ∧ deletionActivities w' = deletionActivities w ∧
    s3log w' = s3log w ++ entries ∧
    retryChain (errors r) entries ∧
    (length entries ≤ attempts)%nat ∧
    clock w ≤ clock w' ≤ clock w + Z.of_nat attempts * RETRY_DELAY_MS.
Proof.
  induction attempts as [|n IH]; intros r w.
  { exists r, w, []. simpl. rewrite app_nil_r. split_and!; try done; lia. }
  simpl s3DeleteWithRetry. unfold bind at 1.
  unfold deleteS3Objects. case_bool_decide as Hk.
  { simpl. exists (mkDeletionResult [] []), w, []. rewrite app_nil_r.
    unfold RETRY_DELAY_MS. split_and!; try done; simpl; lia. }
  assert (errors r ≠ []) as Hne by (by intros Heq; rewrite Heq in Hk).
  unfold try_catch, bind at 1, send.
  destruct (backend (s3log w) (DeleteObjectsCommand (errors r))) as [errs|e] eqn:Hb;
    simpl.
  - case_bool_decide as He; simpl.
    + rewrite bool_decide_false by (destruct errs; simpl in *; lia).
      unfold bind, logger, sleep. simpl.
      edestruct (IH (mkDeletionResult [] errs)) as
        (r' & w' & entries & -> & Hf & Hd & Hlog & Hchain & Hlen & Hclock).
      exists r', w', ((DeleteObjectsCommand (errors r), S3Output errs) :: entries).
      simpl in *. rewrite Hf, Hd, Hlog, <- app_assoc. unfold RETRY_DELAY_MS in *.
      split_and!; try done; lia.
    + exists (mkDeletionResult (errors r) []), 
        (set_logs (logs w ++ [(LInfo,
           "Successfully sent delete command to S3 for %d objects.")])
           (set_s3log (s3log w ++ [(DeleteObjectsCommand (errors r), S3Output errs)]) w)),
        [(DeleteObjectsCommand (errors r), S3Output errs)].
      simpl. unfold RETRY_DELAY_MS. split_and!; try done; lia.
  - rewrite bool_decide_false by done.
    unfold bind, logger, sleep. simpl.
    edestruct (IH (mkDeletionResult [] (errors r))) as
      (r' & w' & entries & -> & Hf & Hd & Hlog & Hchain & Hlen & Hclock).
    exists r', w', ((DeleteObjectsCommand (errors r), S3Failure e) :: entries).
    simpl in *. rewrite Hf, Hd, Hlog, <- app_assoc. unfold RETRY_DELAY_MS in *.
    split_and!; try done; lia.
Qed.

(** ** Stage 1 *)

Lemma sameSurroundings_refl w : sameSurroundings w w.
Proof. by repeat split. Qed.

Lemma sameSurroundings_trans w1 w2 w3 :
  sameSurroundings w1 w2 → sameSurroundings w2 w3 → sameSurroundings w1 w3.
Proof.
  intros (? & ? & ? & ? & ?) (? & ? & ? & ? & ?). repeat split; congruence.
Qed.

Lemma softDeleteFile_surroundings now file w :
  ∃ w', softDeleteFile now file w = (Ret tt, w') ∧ sameSurroundings w w'.
Proof.
  unfold softDeleteFile, try_catch, bind, prisma_file_update, conditionalUpdate,
    logDeletionActivity, try_catch, prisma_deletionActivity_create, logger,
    incrFilesProcessed.
  destruct (updateFaults w) as [|[e|] faults]; simpl;
    repeat (case_bool_decide; simpl);
    eexists; (split; [reflexivity|]); by repeat split.
Qed.

Lemma forOf_softDelete_surroundings now (l : list File) : ∀ w,
  ∃ w', forOf l (softDeleteFile now) w = (Ret tt, w') ∧ sameSurroundings w w'.
Proof.
  induction l as [|x l IH]; intros w.
  { exists w. split; [done|apply sameSurroundings_refl]. }
  destruct (softDeleteFile_surroundings now x w) as (w1 & Hrun1 & H1).
  destruct (IH w1) as (w2 & Hrun2 & H2).
  exists w2. split; [|by eapply sameSurroundings_trans].
  simpl. unfold bind at 1. by rewrite Hrun1.
Qed.

Lemma softDeleteLoop_surroundings now (fuel : nat) : ∀ w,
  ∃ o w', softDeleteLoop fuel now w = (o, w') ∧
          sameSurroundings w w' ∧ ∀ e, o ≠ Throw e.
Proof.
  induction fuel as [|fuel IH]; intros w.
  { exists OutOfFuel, w. split_and!; [done|apply sameSurroundings_refl|done]. }
  simpl. unfold bind at 1, prisma_file_findMany.
  case_bool_decide.
  { eexists _, _. split; [reflexivity|]. split; [by repeat split|done]. }
  unfold bind at 1, logger at 1. unfold bind at 1.
  destruct (forOf_softDelete_surroundings now
              (take BATCH_SIZE (stable_sort byId
                 (filter (λ f, expiredNotDeleted now f) (files w))))
              (set_logs (logs w ++ [(LInfo, "Found %d expired files to soft-delete.")]) w))
    as (w1 & -> & H1).
  destruct (IH w1) as (o & w2 & -> & H2 & Hno).
  exists o, w2. split_and!; [done| |done].
  eapply sameSurroundings_trans; [|exact H2].
  destruct H1 as (? & ? & ? & ? & ?). by repeat split.
Qed.

(** Stage 1 works on the metadata alone: whatever the table holds and
    however long the drain is followed, it never throws, sends nothing
    to the object store and lets the clock, the table [Activity], the
    heap and the identifier supply as they are. *)
Theorem softDelete_stage_is_local (fuel : nat) (w : World) :
  let r := softDeleteExpiredFiles fuel w in
  (∀ e, r.1 ≠ Throw e) ∧ sameSurroundings w r.2.
Proof.
  simpl. unfold softDeleteExpiredFiles, bind, logger, newDate, resetFilesProcessed,
    try_catch, getFilesProcessed. simpl.
  set (w1 := set_filesProcessed _ _).
  destruct (softDeleteLoop_surroundings (clock w) fuel w1) as (o & w2 & -> & H & Hno).
  destruct H as (? & ? & ? & ? & ?).
  destruct o as [[]|e|]; simpl in *.
  - split; [done|]. by repeat split.
  - by destruct (Hno e).
  - split; [done|]. by repeat split.
Qed.

(** The loop of stage 1 in closed form, when the database rejects no
    update: [done] are the rows handled, in the order of their handling. *)
Lemma softDeleteLoop_result now (w : World) (fuel : nat) :
  NoDup (id <$> files w) → updateFaults w = [] → filesProcessed w = 0%nat →
  (length (files w) < fuel)%nat →
  ∃ w' done, softDeleteLoop fuel now w = (Ret tt, w') ∧
    done ≡ₚ filter (dueForSoftDelete now) (files w) ∧
    filesProcessed w' = length done ∧
    files w' = (λ f, if decide (dueForSoftDelete now f)
                     then set_deletedAt f (Some now) else f) <$> files w ∧
    deletionActivities w' = deletionActivities w ++ (softDeleteEntry <$> done) ∧
    filter (λ f, expiredNotDeleted now f) (files w') = [] ∧
    updateFaults w' = [] ∧
    sameSurroundings w w'.
Proof.
  intros Hnd Hnf Hzero Hfuel.
  destruct (softDeleteLoop_drains now (files w) (deletionActivities w) Hnd fuel [] w)
    as (done & w' & Hrun & (Hfiles & Hlog & Hcount & Hnf') & Hall & Hdone & Hnil).
  { split_and!; [|by rewrite app_nil_r|done..]. simpl. by rewrite markDeleted_nil. }
  { done. }
  { constructor. }
  { simpl. lia. }
  destruct (softDeleteLoop_surroundings now fuel w) as (o & w2 & Hrun2 & Hsur & _).
  rewrite Hrun in Hrun2. injection Hrun2 as <- <-.
  assert (∀ f, f ∈ files w → (id f ∈ id <$> done ↔ dueForSoftDelete now f)) as Hiff.
  { intros f Hf. rewrite Forall_forall in Hall. split.
    - intros (d & Hid & Hd)%list_elem_of_fmap. destruct (Hall d Hd) as [Hd0 Hel].
      rewrite (unique_id (files w) f d) by done. by apply expiredNotDeleted_due.
    - intros Hel. destruct (decide (id f ∈ id <$> done)) as [|Hout]; [done|].
      exfalso. eapply (filter_nil_not_elem_of _ _ f Hnil).
      + apply Is_true_true. by apply expiredNotDeleted_due.
      + rewrite Hfiles. apply list_elem_of_fmap. exists f. split; [|done].
        unfold markDeleted. by rewrite bool_decide_false. }
  exists w', done. split_and!; try done.
  - apply NoDup_Permutation.
    + exact (NoDup_fmap_1 id _ Hdone).
    + eapply sublist_NoDup; [exact (NoDup_fmap_1 id _ Hnd)|apply sublist_filter].
    + intros f. rewrite list_elem_of_filter. split.
      * intros Hf. rewrite Forall_forall in Hall. destruct (Hall f Hf) as [Hf0 Hel].
        split; [|done]. by apply expiredNotDeleted_due.
      * intros [Hel Hf]. apply (Hiff f Hf) in Hel.
        apply list_elem_of_fmap in Hel as (d & Hid & Hd).
        rewrite Forall_forall in Hall. destruct (Hall d Hd) as [Hd0 _].
        by rewrite (unique_id (files w) f d).
  - rewrite Hfiles. apply Forall_fmap_ext, Forall_forall. intros f Hf.
    unfold markDeleted. specialize (Hiff f Hf).
    destruct (decide (dueForSoftDelete now f)) as [Hdue|Hnot].
    + rewrite bool_decide_true; [done|]. by apply Hiff.
    + rewrite bool_decide_false; [done|]. intros Hin. by apply Hiff in Hin.
Qed.

(** The outcome of stage 1 in closed form, when the database rejects no
    update. *)
Lemma softDelete_stage_result (w : World) (fuel : nat) :
  NoDup (id <$> files w) → updateFaults w = [] → (length (files w) < fuel)%nat →
  let now := clock w in
  ∃ w', softDeleteExpiredFiles fuel w
        = (Ret (length (filter (dueForSoftDelete now) (files w))), w') ∧
    files w' = (λ f, if decide (dueForSoftDelete now f)
                     then set_deletedAt f (Some now) else f) <$> files w ∧
    filter (λ f, expiredNotDeleted now f) (files w') = [] ∧
    updateFaults w' = [] ∧
    sameSurroundings w w'.
Proof.
  intros Hnd Hnf Hfuel now.
  set (w1 := set_filesProcessed 0 (set_logs (logs w ++
    [(LInfo, "Starting Stage 1: Marking expired files for soft deletion...")]) w)).
  destruct (softDeleteLoop_result now w1 fuel)
    as (w' & handled & Hrun & Hperm & Hcount & Hfiles & _ & Hnil & Hnf' & Hsur);
    [done..|].
  exists w'. split_and!; try done.
  unfold softDeleteExpiredFiles, bind, logger, newDate, resetFilesProcessed,
    try_catch, getFilesProcessed. simpl. fold now. fold w1. rewrite Hrun. simpl.
  by rewrite Hcount, Hperm.
Qed.

(** With no row to soft-delete the stage returns 0 at its first fetch. *)
Lemma softDelete_stage_nothing (w : World) (fuel : nat) :
  filter (λ f, expiredNotDeleted (clock w) f) (files w) = [] →
  ∃ w', softDeleteExpiredFiles (S fuel) w = (Ret 0%nat, w') ∧
    files w' = files w ∧ deletionActivities w' = deletionActivities w ∧
    sameSurroundings w w'.
Proof.
  intros Hnil. eexists. split.
  - unfold softDeleteExpiredFiles, bind, logger, newDate, resetFilesProcessed,
      try_catch, getFilesProcessed, prisma_file_findMany. simpl.
    unfold bind, prisma_file_findMany. simpl. rewrite Hnil. simpl. reflexivity.
  - by repeat split.
Qed.

(** Running stage 1 again right after a full drain (the database having
    rejected no update) changes nothing: the second run returns 0, and
    the table [File] and the audit log are as the first run left them. *)
Theorem softDelete_stage_idempotent (w : World) (fuel : nat) :
  NoDup (id <$> files w) → updateFaults w = [] → (length (files w) < fuel)%nat →
  let w1 := (softDeleteExpiredFiles fuel w).2 in
  let r := softDeleteExpiredFiles fuel w1 in
  r.1 = Ret 0%nat ∧ files r.2 = files w1 ∧
  deletionActivities r.2 = deletionActivities w1.
Proof.
  intros Hnd Hnf Hfuel. simpl.
  destruct (softDelete_stage_result w fuel Hnd Hnf Hfuel)
    as (w1 & -> & _ & Hnil & _ & Hsur).
  simpl. destruct fuel as [|fuel]; [lia|].
  destruct (softDelete_stage_nothing w1 fuel) as (w2 & -> & Hf & Hd & _); [|done].
  destruct Hsur as (_ & -> & _). exact Hnil.
Qed.

Lemma softDelete_stage_idempotent_witness :
  let w := cleanupWorld [fileRow "a" "ka" (Some 5) None;
                         fileRow "b" "kb" (Some 50) None] 10 in
  let w1 := (softDeleteExpiredFiles 3 w).2 in
  (softDeleteExpiredFiles 3 w).1 = Ret 1%nat ∧
  (softDeleteExpiredFiles 3 w1).1 = Ret 0%nat.
Proof.
  intros w w1. split; [reflexivity|].
  assert (NoDup (id <$> files w)) as Hnd
    by (apply (bool_decide_unpack _); exact I).
  exact (proj1 (softDelete_stage_idempotent w 3 Hnd eq_refl (le_n 3))).
Defined.

(** The update of a fetched row rejected by the database for a reason of
    its own (any error whose code is not P2025): the item ends without
    throwing; the row is left as it was, so it is still due; it is not
    counted; and the audit log gets one entry for it, of status
    [FAILED_DB], with the message of the error. *)
Theorem softDelete_rejected_update_is_logged now file w e faults :
  updateFaults w = Some e :: faults →
  code e ≠ Some "P2025" →
  file ∈ files w →
  ∃ w' d, softDeleteFile now file w = (Ret tt, w') ∧
    files w' = files w ∧ filesProcessed w' = filesProcessed w ∧
    deletionActivities w' = deletionActivities w ++ [d] ∧
    da_fileId d = id file ∧ da_status d = FAILED_DB ∧
    da_error d = Some (message e) ∧
    updateFaults w' = faults.
Proof.
  intros Hf Hcode Hin. eexists _, _. split.
  - apply softDeleteFile_fault; [done..|].
    apply Exists_exists. by exists file.
  - by split_and!.
Qed.

Lemma softDelete_rejected_update_is_logged_witness :
  let row := fileRow "a" "ka" (Some 5) None in
  let w := set_updateFaults [Some (Error "connection lost")] (cleanupWorld [row] 10) in
  ∃ w' d, softDeleteFile 10 row w = (Ret tt, w') ∧
    files w' = [row] ∧ deletionActivities w' = [d] ∧
    da_status d = FAILED_DB ∧ da_error d = Some "connection lost".
Proof.
  intros row w.
  destruct (softDelete_rejected_update_is_logged 10 row w (Error "connection lost") [])
    as (w' & d & Hrun & Hfiles & _ & Hlog & _ & Hst & Herr & _).
  - reflexivity.
  - discriminate.
  - left.
  - exists w', d. by split_and!.
Defined.




(** ** Stage 2 and the whole cleanup *)




(** One item of stage 2, whatever the store said: it never throws; the
    table loses the rows of the item's [id], or nothing; the log grows by
    entries of failure only. *)
Lemma hardDeleteFile_step keys file w :
  ∃ w' added, hardDeleteFile keys file w = (Ret tt, w') ∧
    (files w' = files w ∨ files w' = filter (λ f, id f ≠ id file) (files w)) ∧
    deletionActivities w' = deletionActivities w ++ added ∧
    Forall failureEntry added.
Proof.
  unfold hardDeleteFile. case_bool_decide as Hk.
  - unfold try_catch, bind at 1, prisma_file_delete.
    case_bool_decide as Hrow; [case_bool_decide as Href|].
    + simpl. unfold bind, logger. simpl.
      rewrite logDeletionActivity_present by done. eexists _, [_].
      split_and!; [done|by left|done|]. apply Forall_singleton. by right.
    + simpl. unfold bind at 1. rewrite logDeletionActivity_absent.
      2:{ simpl. rewrite Exists_exists.
          intros (f & [? Hf]%list_elem_of_filter & Hid). done. }
      eexists _, []. rewrite app_nil_r. split_and!; [done|by right|done|constructor].
    + simpl. unfold bind, logger. simpl.
      rewrite logDeletionActivity_absent by done. eexists _, [].
      rewrite app_nil_r. split_and!; [done|by left|done|constructor].
  - unfold bind, logger. simpl.
    destruct (decide (Exists (λ f, id f = id file) (files w))) as [H|H].
    + rewrite logDeletionActivity_present by done. eexists _, [_].
      split_and!; [done|by left|done|]. apply Forall_singleton. by left.
    + rewrite logDeletionActivity_absent by done. eexists _, [].
      rewrite app_nil_r. split_and!; [done|by left|done|constructor].
Qed.

Lemma forOf_hardDelete_step keys (l : list File) : ∀ w,
  ∃ w' added, forOf l (hardDeleteFile keys) w = (Ret tt, w') ∧
    files w' `sublist_of` files w ∧
    (∀ f, f ∈ files w → id f ∉ id <$> l → f ∈ files w') ∧
    deletionActivities w' = deletionActivities w ++ added ∧
    Forall failureEntry added.
Proof.
  induction l as [|x l IH]; intros w.
  { exists w, []. rewrite app_nil_r. by split_and!. }
  destruct (hardDeleteFile_step keys x w) as (w1 & a1 & Hrun1 & Hf1 & Hd1 & Ha1).
  destruct (IH w1) as (w2 & a2 & Hrun2 & Hsub & Hkeep & Hd2 & Ha2).
  exists w2, (a1 ++ a2). simpl. unfold bind at 1. rewrite Hrun1.
  split_and!; [done| | |by rewrite Hd2, Hd1, app_assoc|by apply Forall_app].
  - etrans; [exact Hsub|]. destruct Hf1 as [->| ->]; [done|apply sublist_filter].
  - intros f Hf Hid. simpl in Hid.
    apply not_elem_of_cons in Hid as [Hne Hid]. apply Hkeep; [|done].
    destruct Hf1 as [->| ->]; [done|]. by apply list_elem_of_filter.
Qed.

Lemma hardDeleteLoop_step backend (cutoff : Z) (fuel : nat) : ∀ w,
  NoDup (id <$> files w) →
  ∃ o w', hardDeleteLoop backend fuel cutoff w = (o, w') ∧
    (∀ e, o ≠ Throw e) ∧ hardDeleteStep cutoff w w'.
Proof.
  induction fuel as [|fuel IH]; intros w Hnd.
  { exists OutOfFuel, w. split_and!; [done..|].
    split_and!; [done|done|]. exists []. by rewrite app_nil_r. }
  simpl. unfold bind at 1, prisma_file_findMany.
  destruct (findMany_batch (softDeletedBefore cutoff) BATCH_SIZE (files w))
    as (Hin & _ & _).
  set (batch := take BATCH_SIZE _) in *.
  case_bool_decide.
  { eexists _, _. split; [reflexivity|]. split; [done|].
    split_and!; [done|done|]. exists []. by rewrite app_nil_r. }
  unfold bind at 1, hardDeleteBatch, bind at 1, logger at 1. unfold bind at 1.
  edestruct (s3DeleteWithRetry_tables backend RETRY_ATTEMPTS)
    as (r & w1 & -> & Hf1 & Hd1).
  destruct (forOf_hardDelete_step (deleted r) batch w1)
    as (w2 & a2 & -> & Hsub2 & Hkeep2 & Hd2 & Ha2).
  rewrite Hf1 in Hsub2, Hkeep2. rewrite Hd1 in Hd2. simpl in Hsub2, Hkeep2, Hd2.
  destruct (IH w2) as (o & w3 & -> & Hno & Hsub3 & Hkeep3 & a3 & Hd3 & Ha3).
  { eapply sublist_NoDup; [exact Hnd|]. by apply fmap_sublist. }
  exists o, w3. split_and!; [done|done|..].
  split_and!.
  - by etrans.
  - intros f Hf Hdue. apply Hkeep3; [|done]. apply Hkeep2; [done|].
    intros (b & Hid & Hb)%list_elem_of_fmap. destruct (Hin b Hb) as [Hb0 Hbdue].
    rewrite (unique_id (files w) f b) in Hdue by done. congruence.
  - exists (a2 ++ a3). split; [by rewrite Hd3, Hd2, app_assoc|by apply Forall_app].
Qed.

Lemma hardDelete_stage_step backend retention (fuel : nat) (w : World) :
  NoDup (id <$> files w) →
  let r := hardDeleteSoftDeletedFiles backend retention fuel w in
  (∀ e, r.1 ≠ Throw e) ∧
  hardDeleteStep (clock w - retention * 60 * 1000) w r.2.
Proof.
  intros Hnd r. unfold r, hardDeleteSoftDeletedFiles, bind, logger, newDate,
    resetFilesProcessed, try_catch, getFilesProcessed. simpl.
  set (w1 := set_filesProcessed _ _).
  destruct (hardDeleteLoop_step backend (clock w - retention * 60 * 1000) fuel w1 Hnd)
    as (o & w2 & -> & Hno & Hstep).
  destruct o as [[]|e|]; simpl; [done|by destruct (Hno e)|done].
Qed.

(** Stage 2 never removes or changes a row that is not yet due: for
    every store and however long the drain is followed, a row that is
    not soft-deleted, or was soft-deleted within the retention, is still
    in the table; and no row is ever added or rewritten. *)
Theorem hardDelete_stage_spares_rows_not_due backend retention (fuel : nat) w f :
  NoDup (id <$> files w) →
  f ∈ files w →
  (∀ d, deletedAt f = Some d → clock w - retention * 60 * 1000 ≤ d) →
  let w' := (hardDeleteSoftDeletedFiles backend retention fuel w).2 in
  f ∈ files w' ∧ files w' `sublist_of` files w.
Proof.
  intros Hnd Hf Hdue.
  destruct (hardDelete_stage_step backend retention fuel w Hnd)
    as (_ & Hsub & Hkeep & _).
  simpl. split; [|done]. apply Hkeep; [done|].
  unfold softDeletedBefore. destruct (deletedAt f) as [d|]; [|done].
  apply bool_decide_eq_false. specialize (Hdue d eq_refl). lia.
Qed.

Lemma hardDelete_stage_spares_rows_not_due_witness :
  let recent := fileRow "2" "k2" (Some 5) (Some 9999999) in
  let w := cleanupWorld [fileRow "1" "k1" (Some 5) (Some 0); recent] 10000000 in
  recent ∈ files (hardDeleteSoftDeletedFiles acceptingBackend 10 5 w).2.
Proof.
  intros recent w.
  assert (NoDup (id <$> files w)) as Hnd
    by (apply (bool_decide_unpack _); exact I).
  refine (proj1 (hardDelete_stage_spares_rows_not_due acceptingBackend 10 5 w recent
                   Hnd _ _)).
  - right. left.
  - intros d [= <-]. simpl. lia.
Defined.

(** The audit log is append-only under stage 2, and what stage 2 appends
    are entries of failure ([FAILED_S3] or [FAILED_DB]): for every store
    and however long the drain is followed, it writes no
    [SUCCESS_HARD_DELETE] entry. *)
Theorem hardDelete_stage_logs_failures_only backend retention (fuel : nat) w :
  NoDup (id <$> files w) →
  let w' := (hardDeleteSoftDeletedFiles backend retention fuel w).2 in
  ∃ added, deletionActivities w' = deletionActivities w ++ added ∧
           Forall failureEntry added.
Proof.
  intros Hnd.
  destruct (hardDelete_stage_step backend retention fuel w Hnd) as (_ & _ & _ & H).
  exact H.
Qed.

Lemma hardDelete_stage_logs_failures_only_witness :
  let w := cleanupWorld fiveFiles 10000000 in
  let w' := (hardDeleteSoftDeletedFiles partialBackend 10 1 w).2 in
  ∃ added, deletionActivities w' = deletionActivities w ++ added ∧
           Forall failureEntry added.
Proof.
  intros w.
  assert (NoDup (id <$> files w)) as Hnd
    by (apply (bool_decide_unpack _); exact I).
  exact (hardDelete_stage_logs_failures_only partialBackend 10 1 w Hnd).
Defined.




Section Purge.
Variable backend : Backend.
Variable cutoff : Z.
Variable fs0 : list File.
Variable log0 : list DeletionActivity.
Variable t0 : Z.
(** The store deletes what it is asked to. *)
Hypothesis store_deletes :
  ∀ log keys, backend log (DeleteObjectsCommand keys) = S3Output [].
Hypothesis fs0_unique : NoDup (id <$> fs0).
(** No audit entry references a row that is due. *)
Hypothesis due_unreferenced :
  ∀ f, f ∈ fs0 → softDeletedBefore cutoff f = true →
       ¬ Exists (λ d, da_fileId d = id f) log0.




End Purge.



(** ** The upload controller and the validation of its input *)

Lemma requiredString_value k lo hi v s :
  requiredString k lo hi v = ([], s) →
  v = JStr s ∧ s ≠ "" ∧ (lo ≤ String.length s)%nat ∧
  ∀ h, hi = Some h → (String.length s ≤ h)%nat.
Proof.
  unfold requiredString. destruct v as [| | | |s'| |]; simpl; try discriminate.
  case_bool_decide; simpl; [discriminate|].
  case_bool_decide; simpl; [discriminate|].
  destruct hi as [h|].
  - case_bool_decide; simpl; [discriminate|]. intros [= <-].
    split_and!; [done|done|lia|]. intros ? [= <-]. lia.
  - intros [= <-]. split_and!; [done|done|lia|done].
Qed.

Section ControllerAnswers.
Variable backend : Backend.
Variable genId : nat → string.
Variable joi : Joi.

Lemma requiredInteger_value k lo v n :
  requiredInteger joi k lo v = ([], n) → lo ≤ n ≤ 2 ^ 53 - 1.
Proof.
  intros H.
  destruct (requiredInteger_ok joi k lo v) as (q & Hq & Hint & Hb); [by rewrite H|].
  revert H. unfold requiredInteger.
  destruct v; try discriminate; rewrite Hq, Hint; simpl;
    repeat case_bool_decide; try discriminate; by intros [= <-].
Qed.

Lemma partSchema_value i v p :
  partSchema joi i v = ([], p) → 1 ≤ partNumber p ≤ 2 ^ 53 - 1 ∧ eTag p ≠ "".
Proof.
  unfold partSchema.
  assert (match asObject joi v with
          | Some fields =>
              let '(e1, n) := requiredInteger joi "partNumber" 1
                                (assoc "partNumber" fields) in
              let '(e2, t) := requiredString "eTag" 0 None (assoc "eTag" fields) in
              (e1 ++ e2, mkPart n t)
          | None => ([mkFieldError (Index i) "object.base"], mkPart 0 "")
          end = ([], p) → 1 ≤ partNumber p ≤ 2 ^ 53 - 1 ∧ eTag p ≠ "") as Hgen.
  { destruct (asObject joi v) as [fields|]; [|discriminate].
    destruct (requiredInteger _ _ _ _) as [e1 n] eqn:E1.
    destruct (requiredString _ _ _ _) as [e2 t] eqn:E2.
    intros [= [-> ->]%app_eq_nil <-]. simpl.
    apply requiredInteger_value in E1. apply requiredString_value in E2 as (_ & ? & _).
    done. }
  destruct v; try exact Hgen. discriminate.
Qed.

Lemma itemsSchema_value l : ∀ i ps,
  itemsSchema joi i l = ([], ps) →
  Forall (λ p, 1 ≤ partNumber p ≤ 2 ^ 53 - 1 ∧ eTag p ≠ "") ps.
Proof.
  induction l as [|v l IH]; intros i ps; simpl.
  { intros [= <-]. constructor. }
  destruct (partSchema joi i v) as [e p] eqn:Ev.
  destruct (itemsSchema joi (S i) l) as [es ps'] eqn:El.
  intros [= [-> ->]%app_eq_nil <-]. constructor.
  - by eapply partSchema_value.
  - by eapply IH.
Qed.

(** A validated value carries what each rule yields, no rule having
    raised an error. *)
Lemma validate_rules b v :
  validate b (completeUploadSchema joi) = VValue v →
  requiredString "s3Key" 0 None (prop "s3Key" b) = ([], v_s3Key v) ∧
  multipartSchema joi b = ([], v_multipart v) ∧
  uploadIdSchema joi b = ([], v_uploadId v) ∧
  partsSchema joi b = ([], v_parts v) ∧
  requiredString "fileName" 1 (Some 255%nat) (prop "fileName" b) = ([], v_fileName v) ∧
  requiredString "mimeType" 1 None (prop "mimeType" b) = ([], v_mimeType v) ∧
  requiredInteger joi "size" 0 (prop "size" b) = ([], v_size v).
Proof.
  unfold validate, completeUploadSchema. destruct b; try discriminate.
  destruct (requiredString "s3Key" _ _ _) as [e1 x1].
  destruct (multipartSchema _ _) as [e2 x2].
  destruct (uploadIdSchema _ _) as [e3 x3].
  destruct (partsSchema _ _) as [e4 x4].
  destruct (requiredString "fileName" _ _ _) as [e5 x5].
  destruct (requiredString "mimeType" _ _ _) as [e6 x6].
  destruct (requiredInteger _ _ _ _) as [e7 x7].
  destruct (optionalString "encryptedKeyMetadata" _ _ _) as [e8 x8].
  destruct (optionalString "folderId" _ _ _) as [e9 x9].
  destruct (expirySchema _ _) as [e10 x10].
  destruct (e1 ++ _) eqn:E; [|discriminate].
  intros [= <-]. cbn [v_s3Key v_multipart v_uploadId v_parts v_fileName v_mimeType v_size].
  repeat (apply app_eq_nil in E as [? E]). by subst.
Qed.

(** What the safety net reads from the raw body of a validated
    multipart request is what the validated value holds. *)
Lemma validate_raw_body b v :
  validate b (completeUploadSchema joi) = VValue v → v_multipart v = true →
  prop "s3Key" b = JStr (v_s3Key v) ∧
  ∃ uploadId, v_uploadId v = Some uploadId ∧ uploadId ≠ "" ∧
              prop "uploadId" b = JStr uploadId.
Proof.
  intros Hv Hm.
  destruct (validate_rules b v Hv) as (H1 & H2 & H3 & _).
  split.
  - by apply requiredString_value in H1 as [? _].
  - unfold uploadIdSchema, isMultipart in H3. rewrite H2, Hm in H3. simpl in H3.
    destruct (requiredString "uploadId" _ _ _) as [e u] eqn:E.
    injection H3 as -> <-. apply requiredString_value in E as (-> & Hne & _). eauto.
Qed.

(** What the controller can rely on once a body has validated: the key
    and the MIME type are non-empty strings, the file name has 1 to 255
    characters, the size is a safe integer from 0 up; a multipart value
    has a non-empty session identifier and parts whose numbers are safe
    integers from 1 up and whose tags are non-empty; a single-shot value
    has neither. *)
Theorem validate_sound b v :
  validate b (completeUploadSchema joi) = VValue v →
  v_s3Key v ≠ "" ∧ v_mimeType v ≠ "" ∧
  (1 ≤ String.length (v_fileName v) ≤ 255)%nat ∧
  0 ≤ v_size v ≤ 2 ^ 53 - 1 ∧
  if v_multipart v then
    ∃ uploadId ps,
      v_uploadId v = Some uploadId ∧ uploadId ≠ "" ∧ v_parts v = Some ps ∧
      Forall (λ p, 1 ≤ partNumber p ≤ 2 ^ 53 - 1 ∧ eTag p ≠ "") ps
  else v_uploadId v = None ∧ v_parts v = None.
Proof.
  intros Hv.
  destruct (validate_rules b v Hv) as (H1 & H2 & H3 & H4 & H5 & H6 & H7).
  apply requiredString_value in H1 as (_ & ? & _).
  apply requiredString_value in H5 as (_ & _ & ? & Hmax).
  apply requiredString_value in H6 as (_ & ? & _).
  apply requiredInteger_value in H7.
  specialize (Hmax _ eq_refl).
  split_and!; try done; try lia.
  unfold uploadIdSchema, partsSchema, isMultipart in H3, H4. rewrite H2 in H3, H4.
  simpl in H3, H4. destruct (v_multipart v).
  - destruct (requiredString "uploadId" _ _ _) as [e u] eqn:E.
    injection H3 as -> <-. apply requiredString_value in E as (_ & Hne & _).
    exists u.
    destruct (prop "parts" b) as [| |x|q|s'|its|flds]; try discriminate;
      (destruct (asArray joi _) as [l|]; [|discriminate]);
      destruct (itemsSchema _ _ _) as [e' ps] eqn:El; injection H4 as -> <-;
      exists ps; split_and!; try done; by eapply itemsSchema_value.
  - split.
    + destruct (prop "uploadId" b); congruence.
    + destruct (prop "parts" b); congruence.
Qed.

(** The handler always answers, and in one of four ways: the validation
    errors with status 400, [Unauthorized] with status 401, the new row
    with status 201, or an error handed to [next]. *)
Theorem complete_always_answers req w :
  ∃ resp w', complete backend genId joi req w = (Ret resp, w') ∧
    ((∃ errs, resp = Json 400 (PErrors errs)) ∨
     resp = Json 401 (PError "Unauthorized") ∨
     (∃ f, resp = Json 201 (PFile f)) ∨
     (∃ e, resp = Next e)).
Proof.
  run. repeat (case_match; simpl in *; simplify_eq); eauto 10.
Qed.

(** A row is written only for an authenticated user and a body that
    validates: whenever a call changes the table [File], the request
    carries a non-empty user id and a valid body, exactly one row has
    been appended, it is owned by that user, carries the key, name and
    size of the body, is not soft-deleted, and its key was not in the table
    before; one [FILE_UPLOADED] activity references it; and the answer
    is that row with status 201. *)
Theorem complete_row_is_owned req w :
  let r := complete backend genId joi req w in
  files r.2 ≠ files w →
  ∃ userId value f a,
    auth_userId req = Some userId ∧ userId ≠ "" ∧
    validate (body req) (completeUploadSchema joi) = VValue value ∧
    files r.2 = files w ++ [f] ∧
    ownerId f = userId ∧ s3Key f = v_s3Key value ∧
    fileName f = v_fileName value ∧ size f = v_size value ∧
    deletedAt f = None ∧
    (∀ g, g ∈ files w → s3Key g ≠ s3Key f ∧ id g ≠ id f) ∧
    activities r.2 = activities w ++ [a] ∧
    act_type a = "FILE_UPLOADED" ∧ act_fileId a = Some (id f) ∧
    act_userId a = Some userId ∧
    r.1 = Ret (Json 201 (PFile f)).
Proof.
  run. repeat (case_match; simpl in *; simplify_eq); try done.
  all: intros _.
  all: try (exfalso;
            match goal with
            | H : bool_decide (Exists _ (_ ++ [_])) = false |- _ =>
                apply bool_decide_eq_false in H; apply H, created_row_exists;
                reflexivity
            end).
  all: repeat match goal with
              | H : bool_decide _ = false |- _ => apply bool_decide_eq_false in H
              end.
  all: eexists _, _, _, _; split_and!; try done.
  all: intros g Hg; split; intros Heq;
    match goal with
    | H : ¬ Exists _ _ |- _ => apply H, Exists_exists; exists g
    end; (split; [done|]); [by right|by left].
Qed.

(** The assembly refused and the abort accepted: the session is aborted
    exactly once (the flag [aborted] keeps the safety net from a second
    abort), the caller gets the message of the assembly error behind
    the words of the handler, and no row and no activity is written. *)
Theorem complete_assembly_failure_aborts_once req w value userId e1 :
  validate (body req) (completeUploadSchema joi) = VValue value →
  v_multipart value = true →
  auth_userId req = Some userId → userId ≠ "" →
  (∀ log k u ps, backend log (CompleteMultipartUploadCommand k u ps) = S3Failure e1) →
  (∀ log k u, backend log (AbortMultipartUploadCommand k u) = S3Output []) →
  let r := complete backend genId joi req w in
  ∃ uploadId ps,
    v_uploadId value = Some uploadId ∧ v_parts value = Some ps ∧
    r.1 = Ret (Next (Error ("Multipart upload failed and aborted: " +:+ message e1))) ∧
    s3log r.2 = s3log w ++
      [(CompleteMultipartUploadCommand (v_s3Key value) uploadId
          ((λ p, (eTag p, partNumber p)) <$> stable_sort byPartNumber ps),
        S3Failure e1);
       (AbortMultipartUploadCommand (v_s3Key value) uploadId, S3Output [])] ∧
    files r.2 = files w ∧ activities r.2 = activities w.
Proof.
  intros Hv Hm Hauth Hne Hc Ha.
  destruct (validate_multipart _ _ _ Hv Hm) as (_ & u & ps & Hu & Hps).
  exists u, ps. split; [done|]. split; [done|].
  run. rewrite Hv, Hauth, Hm, Hu, Hps. rewrite bool_decide_false by done. simpl.
  rewrite lookup_app_r, Nat.sub_diag by done. simpl.
  rewrite Hc. simpl. rewrite Ha. simpl.
  rewrite <- app_assoc. done.
Qed.

(** The unique key taken: when the table already holds a row with the
    key of a multipart completion and the store accepts the assembly, no
    row and no activity is written and the constraint error goes to
    [next]; the object is assembled in the store all the same, and the
    safety net then sends an abort for the session that has just been
    completed, whose answer it ignores. *)
Theorem complete_duplicate_key_aborts_assembled_upload req w value userId :
  validate (body req) (completeUploadSchema joi) = VValue value →
  prop "multipart" (body req) = JBool true →
  auth_userId req = Some userId → userId ≠ "" →
  Exists (λ f, s3Key f = v_s3Key value) (files w) →
  (∀ log k u ps, backend log (CompleteMultipartUploadCommand k u ps) = S3Output []) →
  let r := complete backend genId joi req w in
  ∃ uploadId ps answer,
    v_uploadId value = Some uploadId ∧ v_parts value = Some ps ∧
    r.1 = Ret (Next P2002) ∧
    s3log r.2 = s3log w ++
      [(CompleteMultipartUploadCommand (v_s3Key value) uploadId
          ((λ p, (eTag p, partNumber p)) <$> stable_sort byPartNumber ps),
        S3Output []);
       (AbortMultipartUploadCommand (v_s3Key value) uploadId, answer)] ∧
    files r.2 = files w ∧ activities r.2 = activities w.
Proof.
  intros Hv Hraw Hauth Hne Hdup Hc.
  assert (v_multipart value = true) as Hm.
  { destruct (validate_rules _ _ Hv) as (_ & H2 & _).
    unfold multipartSchema in H2. rewrite Hraw in H2. by injection H2 as <-. }
  destruct (validate_multipart _ _ _ Hv Hm) as (_ & u & ps & Hu & Hps).
  destruct (validate_raw_body _ _ Hv Hm) as (Hkey & u' & Hu' & Hne' & Hid).
  rewrite Hu in Hu'. injection Hu' as <-.
  exists u, ps. 
  run. rewrite Hv, Hauth, Hm, Hu, Hps. rewrite bool_decide_false by done. simpl.
  rewrite lookup_app_r, Nat.sub_diag by done. simpl.
  rewrite Hc. simpl.
  rewrite bool_decide_true.
  2:{ eapply Exists_impl; [exact Hdup|]. intros f Hf. by right. }
  simpl. rewrite Hraw, Hid, Hkey. simpl.
  rewrite (bool_decide_false (u = "")) by done. simpl.
  set (answer := backend _ (AbortMultipartUploadCommand _ _)).
  exists answer. split; [done|]. split; [done|].
  clearbody answer. destruct answer; simpl; rewrite <- app_assoc; by split_and!.
Qed.

End ControllerAnswers.

Lemma complete_row_is_owned_witness :
  let req := completionRequest JUndefined JUndefined JUndefined in
  let r := complete acceptingBackend sampleId strictJoi req emptyWorld in
  ∃ f, files r.2 = [f] ∧ ownerId f = "u1" ∧ r.1 = Ret (Json 201 (PFile f)).
Proof.
  intros req r.
  destruct (complete_row_is_owned acceptingBackend sampleId strictJoi req emptyWorld)
    as (u & v & f & a & Hu & _ & _ & Hf & Ho & _ & _ & _ & _ & _ & _ & _ & _ & _ & Hr).
  - vm_compute. discriminate.
  - exists f. injection Hu as <-. by split_and!.
Defined.

(** A store that refuses the assembly and accepts the abort. *)
Lemma complete_assembly_failure_aborts_once_witness :
  let req := completionRequest (JBool true) (JStr "u")
               (JArr [partObject 2 "b"; partObject 1 "a"]) in
  let backend : Backend :=
    λ _ c, match c with
           | CompleteMultipartUploadCommand _ _ _ => S3Failure (Error "assembly refused")
           | _ => S3Output []
           end in
  let r := complete backend sampleId strictJoi req emptyWorld in
  r.1 = Ret (Next (Error "Multipart upload failed and aborted: assembly refused")) ∧
  length (s3log r.2) = 2%nat ∧ files r.2 = [].
Proof.
  intros req backend r.
  destruct (complete_assembly_failure_aborts_once backend sampleId strictJoi req
              emptyWorld
              (mkCompleteUpload "uploads/u1/k" true (Some "u")
                 (Some [mkPart 2 "b"; mkPart 1 "a"]) "a.txt" "text/plain" 3
                 None None None)
              "u1" (Error "assembly refused"))
    as (u & ps & _ & _ & Hr & Hlog & Hf & _).
  - vm_compute. reflexivity.
  - reflexivity.
  - reflexivity.
  - discriminate.
  - reflexivity.
  - reflexivity.
  - split; [exact Hr|]. split; [|exact Hf]. unfold r. by rewrite Hlog.
Defined.

(** The key [uploads/u1/k] is taken by an earlier upload. *)
Lemma complete_duplicate_key_aborts_assembled_upload_witness :
  let req := completionRequest (JBool true) (JStr "u")
               (JArr [partObject 2 "b"; partObject 1 "a"]) in
  let w := set_files [fileRow "1" "uploads/u1/k" None None] emptyWorld in
  let r := complete acceptingBackend sampleId strictJoi req w in
  r.1 = Ret (Next P2002) ∧ files r.2 = files w ∧
  (s3log r.2).*1 =
    [CompleteMultipartUploadCommand "uploads/u1/k" "u" [("a", 1); ("b", 2)];
     AbortMultipartUploadCommand "uploads/u1/k" "u"].
Proof.
  intros req w r.
  destruct (complete_duplicate_key_aborts_assembled_upload acceptingBackend sampleId
              strictJoi req w
              (mkCompleteUpload "uploads/u1/k" true (Some "u")
                 (Some [mkPart 2 "b"; mkPart 1 "a"]) "a.txt" "text/plain" 3
                 None None None)
              "u1")
    as (u & ps & answer & Hu & Hps & Hr & Hlog & Hf & _).
  - vm_compute. reflexivity.
  - reflexivity.
  - reflexivity.
  - discriminate.
  - left. reflexivity.
  - reflexivity.
  - split; [exact Hr|]. split; [exact Hf|]. unfold r. rewrite Hlog.
    injection Hu as <-. injection Hps as <-. reflexivity.
Defined.

Lemma validate_sound_witness :
  let req := completionRequest (JBool true) (JStr "u")
               (JArr [partObject 2 "b"; partObject 1 "a"]) in
  ∃ v, validate (body req) (completeUploadSchema strictJoi) = VValue v ∧
       v_multipart v = true ∧ v_s3Key v ≠ "" ∧
       ∃ ps, v_parts v = Some ps ∧
             Forall (λ p, 1 ≤ partNumber p ≤ 2 ^ 53 - 1 ∧ eTag p ≠ "") ps.
Proof.
  intros req.
  set (v := mkCompleteUpload "uploads/u1/k" true (Some "u")
              (Some [mkPart 2 "b"; mkPart 1 "a"]) "a.txt" "text/plain" 3
              None None None).
  assert (validate (body req) (completeUploadSchema strictJoi) = VValue v) as Hv
    by (vm_compute; reflexivity).
  destruct (validate_sound strictJoi (body req) v Hv)
    as (Hkey & _ & _ & _ & u & ps & _ & _ & Hps & Hall).
  exists v. split_and!; [exact Hv|reflexivity|exact Hkey|].
  exists ps. by split.
Defined.
